(** * KnowledgeGraph: graph construction, force simulation and pointer handling

    A shallow embedding of [components/KnowledgeGraph.tsx]: the [graphData]
    memo (nodes and links built from the current note and the note pool),
    the physics part of [animate] (one frame of the force simulation) and
    the mouse handlers that start and end a drag.

    JavaScript numbers are kept behind the interface [Number].  Two
    instances are given: IEEE binary64 ([float], the arithmetic the program
    runs, executable with [vm_compute]) and the real numbers ([R], exact
    arithmetic).  What does not look at a number (identifiers, links, the
    drag state) is proved for every instance; what rests on comparisons
    only is proved for both instances from [NumberLaws]; what rests on the
    field laws (opposite forces, the bound on the force, distances on the
    canvas) is proved in real arithmetic, and evaluated on binary64 on
    sample inputs.

    [Math.random()] is an argument (the sequence of the values it returns),
    an object reference to a node is the node's index in
    [graphData.nodes], and [onSelectNote] is the list of the identifiers it
    was called with.  The title and the content of a note, whose lengths
    the program reads, are sequences of UTF-16 code units. *)

From Stdlib Require Import Reals Lra Psatz.
From Stdlib Require Floats.
From stdpp Require Import gmap strings list.

(** ** Numbers *)

Class Number (num : Type) := {
  nconst : Z -> num;               (* an integer literal *)
  nadd : num -> num -> num;
  nsub : num -> num -> num;
  nmul : num -> num -> num;
  ndiv : num -> num -> num;
  nsqrt : num -> num;              (* Math.sqrt *)
  nlt : num -> num -> bool;        (* a < b *)
  nfalsy : num -> bool             (* the numbers [||] skips: 0, -0, NaN *)
}.

Declare Scope num_scope.
Delimit Scope num_scope with num.
Infix "+" := nadd : num_scope.
Infix "-" := nsub : num_scope.
Infix "*" := nmul : num_scope.
Infix "/" := ndiv : num_scope.
Infix "<?" := nlt : num_scope.

(** [a > b] *)
Definition ngt {num : Type} `{Number num} (a b : num) : bool := nlt b a.
Infix ">?" := ngt : num_scope.

(** [v || d] on numbers *)
Definition nor {num : Type} `{Number num} (v d : num) : num := if nfalsy v then d else v.

(** [Math.min(a, b)] (neither argument is NaN where the program calls it) *)
Definition nmin {num : Type} `{Number num} (a b : num) : num := if nlt b a then b else a.

(** A decimal literal [m / 10^k], such as 0.85 = 85 / 100. *)
Definition ndec {num : Type} `{Number num} (m : Z) (k : nat) : num :=
  ndiv (nconst m) (nconst (10 ^ Z.of_nat k)).

(** binary64; [float_of_Z] is exact on the integers the program writes. *)
Abbreviation float := PrimFloat.float.

Definition float_of_Z (z : Z) : float :=
  match z with
  | Z0 => PrimFloat.zero
  | Zpos _ => PrimFloat.of_uint63 (Uint63.of_Z z)
  | Zneg p => PrimFloat.opp (PrimFloat.of_uint63 (Uint63.of_Z (Zpos p)))
  end.

#[export] Instance float_Number : Number float := {|
  nconst := float_of_Z;
  nadd := PrimFloat.add;
  nsub := PrimFloat.sub;
  nmul := PrimFloat.mul;
  ndiv := PrimFloat.div;
  nsqrt := PrimFloat.sqrt;
  nlt := PrimFloat.ltb;
  nfalsy := fun v => PrimFloat.eqb v PrimFloat.zero || PrimFloat.is_nan v
|}.

(** exact real arithmetic *)
#[export] Instance R_Number : Number R := {|
  nconst := IZR;
  nadd := Rplus;
  nsub := Rminus;
  nmul := Rmult;
  ndiv := Rdiv;
  nsqrt := sqrt;
  nlt := fun a b => if Rlt_dec a b then true else false;
  nfalsy := fun v => if Req_dec_T v 0%R then true else false
|}.

(** What the statements that hold on both instances rest on: nothing is
    below itself (NaN included), and 1 is not a number that [||] skips. *)
Class NumberLaws (num : Type) `{Number num} : Prop := {
  nlt_irrefl : forall a : num, nlt a a = false;
  one_truthy : nfalsy (nconst 1 : num) = false
}.

(** ** The data model ([types.ts], and the interfaces of the component) *)

Inductive LifeAxis :=
  | Career | Health | Relationships | Learning | MentalState
  | CreativeOutput | Unclassified.

Record SmartLink := {
  targetId : string;
  targetTitle : string;
  reason : string
}.

Record NoteMetadata := {
  lifeAxis : option LifeAxis;
  smartLinks : option (list SmartLink)
}.

(** A string whose [length] and [substring] the program reads, as
    JavaScript counts it: the sequence of its UTF-16 code units.  (A
    character outside the basic plane is two units.)  The strings the
    program only compares or passes on are kept as strings. *)
Abbreviation CodeUnits := (list N).

Record Note := {
  id : string;
  title : CodeUnits;
  content : CodeUnits;
  metadata : option NoteMetadata
}.

Record Link := {
  source : string;
  target : string;
  link_reason : option string
}.

(** [interface Node extends Note]: the spread [...n] is the field [note]. *)
Record Node (num : Type) := {
  note : Note;
  x : num;
  y : num;
  vx : num;
  vy : num;
  radius : num;
  isCurrent : bool;
  color : string
}.
Arguments note {num} _.
Arguments x {num} _.
Arguments y {num} _.
Arguments vx {num} _.
Arguments vy {num} _.
Arguments radius {num} _.
Arguments isCurrent {num} _.
Arguments color {num} _.

Definition node_id {num : Type} (n : Node num) : string := id (note n).

Record GraphData (num : Type) := {
  nodes : list (Node num);
  links : list Link
}.
Arguments nodes {num} _.
Arguments links {num} _.

(** ** graphData (lines 43-111) *)

Section Build.
Context {num : Type} `{Number num}.
Local Open Scope num_scope.

(** [allNotes.map(n => n.id === currentNote.id ? currentNote : n)], with
    [currentNote] pushed when no entry carries its id. *)
Definition mergedNotes (currentNote : Note) (allNotes : list Note) : list Note :=
  let merged :=
    (fun n => if String.eqb (id n) (id currentNote) then currentNote else n)
      <$> allNotes in
  match List.find (fun n => String.eqb (id n) (id currentNote)) merged with
  | Some _ => merged
  | None => merged ++ [currentNote]
  end.

Definition axisColor (m : option NoteMetadata) : string :=
  match m ≫= lifeAxis with
  | Some Career => "#3b82f6"
  | Some Health => "#10b981"
  | Some CreativeOutput => "#8b5cf6"
  | Some Learning => "#f59e0b"
  | Some Relationships => "#f43f5e"
  | Some MentalState => "#06b6d4"
  | _ => "#64748b"
  end.

(** One node (lines 57-84); [rx] and [ry] are the two values
    [Math.random()] returned.  [content.length] is the number of UTF-16
    code units of the content. *)
Definition makeNode (currentNote : Note) (rx ry : num) (n : Note) : Node num :=
  let isCur := String.eqb (id n) (id currentNote) in
  {| note := n;
     x := rx * nconst 800 - nconst 400;
     y := ry * nconst 600 - nconst 300;
     vx := nconst 0;
     vy := nconst 0;
     radius :=
       if isCur then nconst 20
       else nconst 8 +
            nmin (nconst (Z.of_nat (length (content n))) / nconst 500)
                 (nconst 10);
     isCurrent := isCur;
     color := if isCur then "#ffffff" else axisColor (metadata n) |}.

(** [rnd k] is the value of the k-th call of [Math.random()]. *)
Definition makeNodes (currentNote : Note) (rnd : nat -> num)
    (merged : list Note) : list (Node num) :=
  imap (fun k n => makeNode currentNote (rnd (2 * k)%nat) (rnd (2 * k + 1)%nat) n)
       merged.

(** [nodeMap.set(n.id, node)] for every node in turn. *)
Definition makeNodeMap (ns : list (Node num)) : gmap string (Node num) :=
  foldl (fun m node => <[node_id node := node]> m) ∅ ns.

(** The bidirectional check [links.some(...)] (lines 93-96). *)
Definition linkJoins (s t : string) (l : Link) : bool :=
  (String.eqb (source l) s && String.eqb (target l) t)
  || (String.eqb (source l) t && String.eqb (target l) s).

Definition linkExists (ls : list Link) (s t : string) : bool :=
  existsb (linkJoins s t) ls.

Definition addSmartLink (nodeMap : gmap string (Node num))
    (sourceNode : Node num) (ls : list Link) (sl : SmartLink) : list Link :=
  if bool_decide (is_Some (nodeMap !! targetId sl)) then
    if linkExists ls (node_id sourceNode) (targetId sl) then ls
    else ls ++ [{| source := node_id sourceNode;
                   target := targetId sl;
                   link_reason := Some (reason sl) |}]
  else ls.

Definition addNodeLinks (nodeMap : gmap string (Node num))
    (ls : list Link) (sourceNode : Node num) : list Link :=
  match metadata (note sourceNode) ≫= smartLinks with
  | Some sls => foldl (addSmartLink nodeMap sourceNode) ls sls
  | None => ls
  end.

Definition makeLinks (ns : list (Node num)) : list Link :=
  foldl (addNodeLinks (makeNodeMap ns)) [] ns.

Definition graphData (currentNote : Note) (allNotes : list Note)
    (rnd : nat -> num) : GraphData num :=
  let ns := makeNodes currentNote rnd (mergedNotes currentNote allNotes) in
  {| nodes := ns; links := makeLinks ns |}.

End Build.

(** ** The physics step of [animate] (lines 151-217) *)

(** What one frame reads besides the graph: the canvas size ([width],
    [height], refreshed by [handleResize]), the dragged node (an object
    reference in the source, here its index in [graphData.nodes]) and the
    pointer position recorded by [handleMouseMove]. *)
Record Frame (num : Type) := {
  width : num;
  height : num;
  draggingNode : option nat;
  mouseX : num;
  mouseY : num
}.
Arguments width {num} _.
Arguments height {num} _.
Arguments draggingNode {num} _.
Arguments mouseX {num} _.
Arguments mouseY {num} _.

Section Physics.
Context {num : Type} `{Number num}.
Local Open Scope num_scope.

Definition REPULSION : num := nconst 1200.
Definition SPRING_LENGTH : num := nconst 180.
Definition SPRING_STRENGTH : num := ndec 4 2.   (* 0.04 *)
Definition DAMPING : num := ndec 85 2.          (* 0.85 *)
Definition CENTER_PULL : num := ndec 8 3.       (* 0.008 *)

(** [Math.sqrt(dx * dx + dy * dy) || 1] *)
Definition distOr1 (dx dy : num) : num :=
  nor (nsqrt (dx * dx + dy * dy)) (nconst 1).

(** The distance the repulsion divides by: [distOr1], then
    [if (dist < 1) dist = 1]. *)
Definition repulsionDist (dx dy : num) : num :=
  let dist := distOr1 dx dy in
  if dist <? nconst 1 then nconst 1 else dist.

(** What one pass of the repulsion loop adds to [(fx, fy)] for [node]
    against [other] (lines 168-175). *)
Definition repulsionTerm (node other : Node num) : num * num :=
  let dx := x node - x other in
  let dy := y node - y other in
  let dist := repulsionDist dx dy in
  let force := REPULSION / (dist * dist) in
  ((dx / dist) * force, (dy / dist) * force).

(** The repulsion loop of the node at index [i]: every node of the array
    but the node itself ([node === other] is identity of objects, that is
    equality of indices). *)
Definition repulsion (ns : list (Node num)) (i : nat) (node : Node num)
    : num * num :=
  foldl (fun f jo =>
           if Nat.eqb jo.1 i then f
           else let t := repulsionTerm node jo.2 in (f.1 + t.1, f.2 + t.2))
        (nconst 0, nconst 0) (imap pair ns).

(** [graphData.nodes.find(n => n.id === k)], with the index of the node
    found standing for the object. *)
Definition findNode (ns : list (Node num)) (k : string)
    : option (nat * Node num) :=
  list_find (fun n => node_id n = k) ns.

Definition springTerm (node other : Node num) : num * num :=
  let dx := x node - x other in
  let dy := y node - y other in
  let dist := distOr1 dx dy in
  let displacement := dist - SPRING_LENGTH in
  let force := displacement * SPRING_STRENGTH in
  ((dx / dist) * force, (dy / dist) * force).

(** The attraction loop (lines 179-197): every link one of whose ends is
    this node. *)
Definition attraction (ns : list (Node num)) (ls : list Link) (i : nat)
    (node : Node num) (f0 : num * num) : num * num :=
  foldl (fun f link =>
           match findNode ns (source link), findNode ns (target link) with
           | Some (si, src), Some (ti, tgt) =>
               if Nat.eqb i si || Nat.eqb i ti then
                 let other := if Nat.eqb i si then tgt else src in
                 let t := springTerm node other in
                 (f.1 - t.1, f.2 - t.2)
               else f
           | _, _ => f
           end)
        f0 ls.

(** Position and velocity on one axis after the two boundary tests
    (lines 213-214 for x, 215-216 for y). *)
Definition bounce (dim padding pos vel : num) : num * num :=
  let pv := if pos <? padding then (padding, vel * nconst (-1)) else (pos, vel) in
  if pv.1 >? dim - padding then (dim - padding, pv.2 * nconst (-1)) else pv.

(** The body of the outer [forEach] for the node at index [i]. *)
Definition stepNode (fr : Frame num) (ls : list Link) (ns : list (Node num))
    (i : nat) (node : Node num) : Node num :=
  if bool_decide (draggingNode fr = Some i) then
    {| note := note node; x := x node; y := y node;
       vx := (mouseX fr - x node) * ndec 1 1;
       vy := (mouseY fr - y node) * ndec 1 1;
       radius := radius node; isCurrent := isCurrent node;
       color := color node |}
  else
    let f := attraction ns ls i node (repulsion ns i node) in
    let cx := width fr / nconst 2 in
    let cy := height fr / nconst 2 in
    let fx := f.1 + (cx - x node) * CENTER_PULL in
    let fy := f.2 + (cy - y node) * CENTER_PULL in
    let vx1 := (vx node + fx) * DAMPING in
    let vy1 := (vy node + fy) * DAMPING in
    let x1 := x node + vx1 in
    let y1 := y node + vy1 in
    let padding := radius node + nconst 10 in
    let bx := bounce (width fr) padding x1 vx1 in
    let by_ := bounce (height fr) padding y1 vy1 in
    {| note := note node; x := bx.1; y := by_.1; vx := bx.2; vy := by_.2;
       radius := radius node; isCurrent := isCurrent node;
       color := color node |}.

(** The nodes are updated in place, one after the other: the node at
    index [i] is computed from the array as the nodes before it left it. *)
Definition stepAt (fr : Frame num) (ls : list Link) (ns : list (Node num))
    (i : nat) : list (Node num) :=
  match ns !! i with
  | Some node => <[i := stepNode fr ls ns i node]> ns
  | None => ns
  end.

Definition physicsStep (fr : Frame num) (ls : list Link)
    (ns : list (Node num)) : list (Node num) :=
  foldl (stepAt fr ls) ns (seq 0 (length ns)).

(** The array while the step is at index [k]: the first [k] nodes done. *)
Definition stepUpTo (fr : Frame num) (ls : list Link)
    (ns : list (Node num)) (k : nat) : list (Node num) :=
  foldl (stepAt fr ls) ns (seq 0 k).

(** The four boundary tests all fail: the node is inside the canvas, its
    radius and the margin of 10 counted. *)
Definition inBounds (fr : Frame num) (n : Node num) : bool :=
  let padding := radius n + nconst 10 in
  negb (x n <? padding) && negb (x n >? width fr - padding)
  && negb (y n <? padding) && negb (y n >? height fr - padding).

(** The repulsion the step accumulates for the node at index [i], when its
    turn comes. *)
Definition repulsionInStep (fr : Frame num) (ls : list Link)
    (ns : list (Node num)) (i : nat) : num * num :=
  match stepUpTo fr ls ns i !! i with
  | Some node => repulsion (stepUpTo fr ls ns i) i node
  | None => (nconst 0, nconst 0)
  end.

(** Several frames in a row, each with its own canvas size, drag state
    and pointer position. *)
Definition simulate (ls : list Link) (frs : list (Frame num))
    (ns : list (Node num)) : list (Node num) :=
  foldl (fun ns fr => physicsStep fr ls ns) ns frs.

End Physics.

(** ** Pointer handlers (lines 285-374) *)

(** The state the effect closes over: the memoised graph, and the variables
    [width], [height], [draggingNode], [mouseX], [mouseY]. *)
Record View (num : Type) := {
  graph : GraphData num;
  frame : Frame num
}.
Arguments graph {num} _.
Arguments frame {num} _.

(** What the effect listens to: the mouse events of the canvas, the resize
    of the window, and the animation frame. *)
Inductive Event (num : Type) :=
  | MouseDown (px py : num)
  | MouseMove (px py : num)
  | MouseUp (px py : num)
  | MouseLeave
  | Resize (w h : num)
  | AnimationFrame.
Arguments MouseDown {num} _ _.
Arguments MouseMove {num} _ _.
Arguments MouseUp {num} _ _.
Arguments MouseLeave {num}.
Arguments Resize {num} _ _.
Arguments AnimationFrame {num}.

Section Pointer.
Context {num : Type} `{Number num}.
Local Open Scope num_scope.

(** [Math.sqrt((n.x - px) ** 2 + (n.y - py) ** 2)], for [(px, py)] the
    pointer relative to the canvas; [a ** 2] is [a * a]. *)
Definition pointerDist (n : Node num) (px py : num) : num :=
  nsqrt ((x n - px) * (x n - px) + (y n - py) * (y n - py)).

(** [graphData.nodes.find(n => dist < n.radius + 5)] *)
Definition hitNode (ns : list (Node num)) (px py : num)
    : option (nat * Node num) :=
  list_find (fun n => Is_true (pointerDist n px py <? radius n + nconst 5)) ns.

Definition setDragging (fr : Frame num) (d : option nat) : Frame num :=
  {| width := width fr; height := height fr; draggingNode := d;
     mouseX := mouseX fr; mouseY := mouseY fr |}.

Definition handleMouseDown (v : View num) (px py : num) : View num :=
  match hitNode (nodes (graph v)) px py with
  | Some (i, _) => {| graph := graph v; frame := setDragging (frame v) (Some i) |}
  | None => v
  end.

(** The part every call runs: the pointer position is recorded.  During
    a drag that is all the handler does.  When no node is dragged it goes
    on to the hover detection ([hoverOnMove] below); a change of
    [hoveredLink] there makes the effect run again ([moveReruns],
    [rerunEffect] below), which is no part of this handler nor of [run]:
    [run] follows the program for as long as the effect is not run
    again. *)
Definition handleMouseMove (v : View num) (px py : num) : View num :=
  {| graph := graph v;
     frame := {| width := width (frame v); height := height (frame v);
                 draggingNode := draggingNode (frame v);
                 mouseX := px; mouseY := py |} |}.

(** The view after the handler, and the argument of [onSelectNote] when it
    is called. *)
Definition handleMouseUp (currentNote : Note) (v : View num) (px py : num)
    : View num * option string :=
  match draggingNode (frame v) with
  | Some i =>
      let released := {| graph := graph v; frame := setDragging (frame v) None |} in
      match nodes (graph v) !! i with
      | Some node =>
          if pointerDist node px py <? radius node + nconst 10 then
            if negb (String.eqb (node_id node) (id currentNote))
            then (released, Some (node_id node))
            else (released, None)
          else (released, None)
      | None => (released, None)
      end
  | None => (v, None)
  end.

Definition handleMouseLeave (v : View num) : View num :=
  {| graph := graph v; frame := setDragging (frame v) None |}.

Definition handleResize (v : View num) (w h : num) : View num :=
  {| graph := graph v;
     frame := {| width := w; height := h;
                 draggingNode := draggingNode (frame v);
                 mouseX := mouseX (frame v); mouseY := mouseY (frame v) |} |}.

Definition animate (v : View num) : View num :=
  {| graph := {| nodes := physicsStep (frame v) (links (graph v)) (nodes (graph v));
                 links := links (graph v) |};
     frame := frame v |}.

Definition handle (currentNote : Note) (v : View num) (e : Event num)
    : View num * option string :=
  match e with
  | MouseDown px py => (handleMouseDown v px py, None)
  | MouseMove px py => (handleMouseMove v px py, None)
  | MouseUp px py => handleMouseUp currentNote v px py
  | MouseLeave => (handleMouseLeave v, None)
  | Resize w h => (handleResize v w h, None)
  | AnimationFrame => (animate v, None)
  end.

(** The events in order; the second component lists the calls of
    [onSelectNote]. *)
Fixpoint run (currentNote : Note) (v : View num) (es : list (Event num))
    : View num * list string :=
  match es with
  | [] => (v, [])
  | e :: es' =>
      let r := handle currentNote v e in
      let r' := run currentNote r.1 es' in
      (r'.1, match r.2 with Some k => k :: r'.2 | None => r'.2 end)
  end.

End Pointer.

(** ** Notions the statements below use *)

Section Counting.
Context {num : Type} `{Number num}.

(** How many entries of a list of notes carry the identifier [k]. *)
Definition countId (k : string) (ns : list Note) : nat :=
  length (filter (fun n => id n = k) ns).

(** How many nodes are marked as the current note. *)
Definition countCurrent (ns : list (Node num)) : nat :=
  length (filter (fun n => isCurrent n = true) ns).

(** How many links join the unordered pair [{s, t}]. *)
Definition countJoins (s t : string) (ls : list Link) : nat :=
  length (filter (fun l => linkJoins s t l = true) ls).

(** The identifiers a note declares smart links to. *)
Definition linksTo (n : Note) : list string :=
  match metadata n ≫= smartLinks with
  | Some sls => targetId <$> sls
  | None => []
  end.

(** Among [notes], the note of [k] declares a smart link to [t]. *)
Definition declares (notes : list Note) (k t : string) : Prop :=
  exists n, n ∈ notes /\ id n = k /\ t ∈ linksTo n.

(** No unordered pair of identifiers is joined by two links. *)
Definition atMostOnce (ls : list Link) : Prop :=
  forall s t, countJoins s t ls <= 1.

(** What a step never writes. *)
Definition sameIdentity (n n' : Node num) : Prop :=
  note n' = note n /\ radius n' = radius n /\
  isCurrent n' = isCurrent n /\ color n' = color n.

(** Every node is marked current exactly when it carries the identifier of
    the note [c]. *)
Definition flagged (c : Note) (ns : list (Node num)) : Prop :=
  Forall (fun n => isCurrent n = String.eqb (node_id n) (id c)) ns.

(** Events that neither start nor end a drag. *)
Definition quiet (e : Event num) : Prop :=
  match e with
  | MouseMove _ _ | Resize _ _ | AnimationFrame => True
  | _ => False
  end.

(** [n'] is the node [n], where [n] is, with any velocity. *)
Definition samePlace (n n' : Node num) : Prop :=
  x n' = x n /\ y n' = y n /\ sameIdentity n n'.

End Counting.

(** ** Sample inputs *)

(** The code units of a text of ASCII characters: one unit for each
    character, its code. *)
Definition codeUnits (s : string) : CodeUnits :=
  (fun a => Ascii.N_of_ascii a) <$> String.list_ascii_of_string s.

(** A note with the given identifier, ASCII text and smart-link targets. *)
Definition sampleNote (i text : string) (targets : list string) : Note :=
  {| id := i; title := codeUnits i; content := codeUnits text;
     metadata :=
       Some {| lifeAxis := None;
               smartLinks :=
                 Some ((fun t => {| targetId := t; targetTitle := t;
                                    reason := "related" |}) <$> targets) |} |}.

(** [Math.random()] returning 0.5 at every call. *)
Definition sampleRandom : nat -> float := fun _ => ndec 5 1.

(** [Math.random()] returning 0, 0.1, 0.2, ... in turn. *)
Definition spreadRandom : nat -> float :=
  fun k => ndiv (nconst (Z.of_nat k)) (nconst 10).

(** A node of another note than the current one, at rest at [(px, py)]. *)
Definition sampleNode {num : Type} `{Number num} (i : string) (px py r : Z)
    : Node num :=
  {| note := sampleNote i "" []; x := nconst px; y := nconst py;
     vx := nconst 0; vy := nconst 0; radius := nconst r;
     isCurrent := false; color := "#64748b" |}.

(** The node of the current note, at rest at [(px, py)]. *)
Definition currentNode {num : Type} `{Number num} (i : string) (px py : Z)
    : Node num :=
  {| note := sampleNote i "" []; x := nconst px; y := nconst py;
     vx := nconst 0; vy := nconst 0; radius := nconst 20;
     isCurrent := true; color := "#ffffff" |}.

(** The current note "A" in the middle of a canvas of 800 by 600, and a note
    "B" without text (radius 8) at (100, 100). *)
Definition sampleNodes {num : Type} `{Number num} : list (Node num) :=
  [currentNode "A" 400 300; sampleNode "B" 100 100 8].

(** A canvas of [w] by [h] with the pointer last seen at [(mx, my)]. *)
Definition sampleFrame {num : Type} `{Number num} (w h : Z) (d : option nat)
    (mx my : Z) : Frame num :=
  {| width := nconst w; height := nconst h; draggingNode := d;
     mouseX := nconst mx; mouseY := nconst my |}.

(** A view of the given nodes, without links. *)
Definition sampleView {num : Type} `{Number num} (ns : list (Node num))
    (fr : Frame num) : View num :=
  {| graph := {| nodes := ns; links := [] |}; frame := fr |}.

(** ** The rest of the component, and its callers *)

(** [a === b] on numbers, which [Number] does not have: on binary64 it
    holds of 0 and -0 and fails on NaN. *)
Class NumberEq (num : Type) := {
  nseq : num -> num -> bool
}.

#[export] Instance float_NumberEq : NumberEq float := {|
  nseq := PrimFloat.eqb
|}.

#[export] Instance R_NumberEq : NumberEq R := {|
  nseq := fun a b => if Req_dec_T a b then true else false
|}.

(** What [setHoveredNode] and [setHoveredLink] hold: the hovered node (an
    object reference, here its index) and the hovered link with the place
    of the pointer. *)
Record Hover (num : Type) := {
  hoveredNode : option nat;
  hoveredLink : option (Link * num * num)
}.
Arguments hoveredNode {num} _.
Arguments hoveredLink {num} _.

Section Rest.
Context {num : Type} {HN : Number num} {HE : NumberEq num}.
Local Open Scope num_scope.

(** The nodes found at (0, 0) are put near the middle of the canvas, each
    with two fresh values of [Math.random()] (lines 140-145); [k] counts
    the values used so far. *)
Definition isFresh (n : Node num) : bool :=
  nseq (x n) (nconst 0) && nseq (y n) (nconst 0).

Definition centerNode (w h r1 r2 : num) (n : Node num) : Node num :=
  {| note := note n;
     x := w / nconst 2 + (r1 - ndec 5 1) * nconst 100;
     y := h / nconst 2 + (r2 - ndec 5 1) * nconst 100;
     vx := vx n; vy := vy n; radius := radius n;
     isCurrent := isCurrent n; color := color n |}.

Fixpoint centerFresh (w h : num) (rnd : nat -> num) (k : nat)
    (ns : list (Node num)) : list (Node num) :=
  match ns with
  | [] => []
  | n :: ns' =>
      if isFresh n
      then centerNode w h (rnd k) (rnd (S k)) n
           :: centerFresh w h rnd (S (S k)) ns'
      else n :: centerFresh w h rnd k ns'
  end.

(** The distance from the pointer to the segment between two nodes
    (lines 324-343), before the comparison with the tolerance. *)
Definition segmentDist (src tgt : Node num) (mx my : num) : num :=
  let A := mx - x src in
  let B := my - y src in
  let C := x tgt - x src in
  let D := y tgt - y src in
  let dot := A * C + B * D in
  let len_sq := C * C + D * D in
  let param := if negb (nseq len_sq (nconst 0)) then dot / len_sq
               else nconst (-1) in
  let xy :=
    if param <? nconst 0 then (x src, y src)
    else if param >? nconst 1 then (x tgt, y tgt)
    else (x src + param * C, y src + param * D) in
  let dx := mx - xy.1 in
  let dy := my - xy.2 in
  nsqrt (dx * dx + dy * dy).

(** [graphData.links.find(l => ...)]: the first link both of whose ends are
    nodes and whose segment is less than 5 from the pointer. *)
Definition linkNear (ns : list (Node num)) (mx my : num) (l : Link) : bool :=
  match findNode ns (source l), findNode ns (target l) with
  | Some (_, src), Some (_, tgt) => segmentDist src tgt mx my <? nconst 5
  | _, _ => false
  end.

Definition linkHit (ns : list (Node num)) (ls : list Link) (mx my : num)
    : option Link :=
  List.find (linkNear ns mx my) ls.

(** The hover part of [handleMouseMove] (lines 305-348): nothing while a
    node is dragged; otherwise the node under the pointer, or else the link
    under it. *)
Definition hoverOnMove (v : View num) (h : Hover num) (px py : num)
    : Hover num :=
  match draggingNode (frame v) with
  | Some _ => h
  | None =>
      match hitNode (nodes (graph v)) px py with
      | Some (i, _) => {| hoveredNode := Some i; hoveredLink := None |}
      | None =>
          {| hoveredNode := None;
             hoveredLink :=
               match linkHit (nodes (graph v)) (links (graph v)) px py with
               | Some l => Some (l, px, py)
               | None => None
               end |}
      end
  end.

(** Whether the drawing step writes the title under a node (line 261). *)
Definition labelShown (hovered : option nat) (i : nat) (n : Node num) : bool :=
  isCurrent n || bool_decide (hovered = Some i) || (radius n >? nconst 15).

End Rest.

(** The title as it is drawn (line 266): [length] counts and
    [substring(0, 18)] cuts UTF-16 code units, and ['..'] is two units of
    code 46. *)
Definition labelText (t : CodeUnits) : CodeUnits :=
  if Nat.ltb 20 (length t) then take 18 t ++ [46%N; 46%N] else t.

(** [NoteEditor]: the notes listed under "Referenced By", those with a smart
    link to [noteId]. *)
Definition backlinks (noteId : string) (allNotes : list Note) : list Note :=
  List.filter
    (fun n => match metadata n ≫= smartLinks with
              | Some sls => existsb (fun sl => String.eqb (targetId sl) noteId) sls
              | None => false
              end)
    allNotes.

(** [App]: the note shown for the identifier [handleSelectNoteById] stored,
    looked up among the public notes in the community view and among the
    user's notes otherwise. *)
Definition selectedNote (community : bool) (publicNotes notes : list Note)
    (selectedNoteId : option string) : option Note :=
  match selectedNoteId with
  | Some k =>
      List.find (fun n => String.eqb (id n) k)
                (if community then publicNotes else notes)
  | None => None
  end.

(** The view the effect starts from (lines 123-149): the canvas measured,
    the nodes at (0, 0) centred, nothing dragged, the pointer at (0, 0). *)
Definition mountView {num : Type} {HN : Number num} {HE : NumberEq num}
    (g : GraphData num) (w h : num) (rnd : nat -> num) : View num :=
  {| graph := {| nodes := centerFresh w h rnd 0 (nodes g); links := links g |};
     frame := {| width := w; height := h; draggingNode := None;
                 mouseX := nconst 0; mouseY := nconst 0 |} |}.

(** The effect run again (its cleanup, then lines 114-149) because
    [hoveredLink], one of its dependencies (line 383), changed: the canvas
    is measured, the nodes at (0, 0) are centred, and [draggingNode],
    [mouseX] and [mouseY] are new variables, null and 0.  When React runs
    it is not fixed by the handler, so it is a step of its own. *)
Definition rerunEffect {num : Type} {HN : Number num} {HE : NumberEq num}
    (v : View num) (w h : num) (rnd : nat -> num) : View num :=
  mountView (graph v) w h rnd.

(** Whether a pointer move changes [hoveredLink]: not during a drag;
    otherwise [setHoveredLink] gets a new object when a link is hit, which
    is always a change, and [null] is a change when a link was hovered. *)
Definition moveReruns {num : Type} {HN : Number num} {HE : NumberEq num}
    (v : View num) (h : Hover num) (px py : num) : bool :=
  match draggingNode (frame v) with
  | Some _ => false
  | None =>
      bool_decide (is_Some (hoveredLink (hoverOnMove v h px py)))
      || bool_decide (is_Some (hoveredLink h))
  end.

(** The two sample nodes joined by a link, on a canvas of 800 by 600,
    nothing dragged; the point (250, 200) is the middle of the link. *)
Definition linkedView {num : Type} `{Number num} : View num :=
  {| graph := {| nodes := sampleNodes;
                 links := [{| source := "A"; target := "B";
                              link_reason := Some "related" |}] |};
     frame := sampleFrame 800 600 None 0 0 |}.

(** A press on the node "B" at (100, 100), the pointer moved 200 to the
    right with the button held, then 200 frames. *)
Definition dragAway : list (Event float) :=
  [MouseDown (nconst 100) (nconst 100); MouseMove (nconst 300) (nconst 100)]
  ++ replicate 200 AnimationFrame.

(** The pointer moved onto the middle of the link, and then onto the node
    "B": each of the two moves changes [hoveredLink] (to the link, and back
    to null), and the effect has run again after each. *)
Definition overLink : View float :=
  rerunEffect (handleMouseMove linkedView (nconst 250) (nconst 200))
              (nconst 800) (nconst 600) sampleRandom.

Definition overNode : View float :=
  rerunEffect (handleMouseMove overLink (nconst 100) (nconst 100))
              (nconst 800) (nconst 600) sampleRandom.

(** ** Notions the statements about the rest use *)

Section Notions.
Context {num : Type} {HN : Number num}.
Local Open Scope list_scope.

(** A link as the node [n] declares it: from [n] to the target of one of
    its smart links, with the reason given there. *)
Definition declaredBy (n : Note) (l : Link) : Prop :=
  exists sls sl,
    metadata n ≫= smartLinks = Some sls /\ sl ∈ sls /\
    source l = id n /\ target l = targetId sl /\
    link_reason l = Some (reason sl).

(** Every link of [ls] joins two nodes of [ns] and is declared by one. *)
Definition soundLinks (ns : list (Node num)) (ls : list Link) : Prop :=
  forall l, l ∈ ls ->
    target l ∈ node_id <$> ns /\
    exists n, n ∈ ns /\ declaredBy (note n) l.

(** What no event writes: for each node its note, radius, mark and colour. *)
Definition identities (ns : list (Node num))
    : list (Note * num * bool * string) :=
  (fun n => (note n, radius n, isCurrent n, color n)) <$> ns.

Definition isMouseUp (e : Event num) : Prop :=
  match e with MouseUp _ _ => True | _ => False end.

#[export] Instance isMouseUp_dec (e : Event num) : Decision (isMouseUp e) :=
  match e with
  | MouseUp _ _ => left I
  | _ => right (fun f : False => f)
  end.

End Notions.

(** The radius of a node as [graphData] sets it. *)
Definition radiusOf (cur : bool) (n : Note) : R :=
  (if cur then 20 else 8 + Rmin (INR (length (content n)) / 500) 10)%R.

(** The distance from the pointer to the point of the segment from [src]
    to [tgt] at the parameter [t]. *)
Definition distanceAt (src tgt : Node R) (mx my t : R) : R :=
  (sqrt ((mx - (x src + t * (x tgt - x src)))
        * (mx - (x src + t * (x tgt - x src)))
        + (my - (y src + t * (y tgt - y src)))
          * (my - (y src + t * (y tgt - y src)))))%R.

(** * Folds *)

Lemma foldl_invariant {A B : Type} (P : A -> Prop) (f : A -> B -> A)
    (l : list B) (a : A) :
  P a -> (forall a x, P a -> P (f a x)) -> P (foldl f a l).
Proof.
  intros Ha Hf. revert a Ha.
  induction l as [| x l IH]; intros a Ha; simpl; [done |].
  apply IH. by apply Hf.
Qed.

(** A property some element of the list establishes, and every step keeps. *)
Lemma foldl_established {A B : Type} (Q : A -> Prop) (R : B -> Prop)
    (f : A -> B -> A) (l : list B) (a : A) :
  (forall a x, R x -> Q (f a x)) ->
  (forall a y, Q a -> Q (f a y)) ->
  (exists x, x ∈ l /\ R x) ->
  Q (foldl f a l).
Proof.
  intros Hest Hkeep. revert a.
  induction l as [| y l IH]; intros a (x & I & Rx).
  - by apply elem_of_nil in I.
  - simpl. apply elem_of_cons in I as [-> | I].
    + apply foldl_invariant; [by apply Hest | done].
    + apply IH. eauto.
Qed.

(** * Facts about [graphData] *)

Section BuildFacts.
Context {num : Type} `{Number num}.

Lemma eqb_decide (a b : string) :
  String.eqb a b = bool_decide (a = b).
Proof.
  destruct (String.eqb_spec a b) as [E | E].
  - by rewrite bool_decide_eq_true_2.
  - by rewrite bool_decide_eq_false_2.
Qed.

(** *** The merged notes *)

Lemma replaced_id (c n : Note) :
  id (if String.eqb (id n) (id c) then c else n) = id n.
Proof.
  destruct (String.eqb_spec (id n) (id c)) as [E | E]; [by rewrite E | done].
Qed.

Lemma find_replaced (c : Note) (pool : list Note) :
  List.find (fun n => String.eqb (id n) (id c))
    ((fun n => if String.eqb (id n) (id c) then c else n) <$> pool)
  = if decide (id c ∈ id <$> pool) then Some c else None.
Proof.
  induction pool as [| n pool IH].
  - destruct (decide (id c ∈ id <$> [])) as [I | I]; [| done].
    by apply elem_of_nil in I.
  - rewrite !fmap_cons. cbn [List.find]. rewrite replaced_id.
    destruct (String.eqb_spec (id n) (id c)) as [E | E].
    + rewrite decide_True; [done |]. rewrite E. apply list_elem_of_here.
    + rewrite IH.
      destruct (decide (id c ∈ id <$> pool)) as [I | I].
      * rewrite decide_True; [done | by apply list_elem_of_further].
      * rewrite decide_False; [done |].
        intros [E2 | E2]%elem_of_cons; congruence.
Qed.

Lemma mergedNotes_ids (c : Note) (pool : list Note) :
  id <$> mergedNotes c pool
  = (id <$> pool) ++ (if decide (id c ∈ id <$> pool) then [] else [id c]).
Proof.
  unfold mergedNotes. cbv zeta. rewrite find_replaced.
  assert (E : id <$> ((fun n => if String.eqb (id n) (id c) then c else n) <$> pool)
              = id <$> pool).
  { rewrite <- list_fmap_compose. apply list_fmap_ext.
    intros i n _. apply replaced_id. }
  destruct (decide (id c ∈ id <$> pool)).
  - by rewrite E, app_nil_r.
  - by rewrite fmap_app, E.
Qed.

Lemma countId_ids (k : string) (ns : list Note) :
  countId k ns = length (filter (fun i => i = k) (id <$> ns)).
Proof.
  unfold countId. induction ns as [| n ns IH]; [done |].
  rewrite fmap_cons, !filter_cons.
  destruct (decide (id n = k)); simpl; by rewrite IH.
Qed.

Lemma countId_zero (k : string) (ns : list Note) :
  countId k ns = 0 <-> k ∉ id <$> ns.
Proof.
  unfold countId. induction ns as [| n ns IH].
  - split; [intros _; apply not_elem_of_nil | done].
  - rewrite fmap_cons, filter_cons, not_elem_of_cons.
    destruct (decide (id n = k)) as [E | E]; simpl.
    + split; [done | intros [E' _]; congruence].
    + rewrite IH. split; [intros I; split; [congruence | done] | by intros [_ I]].
Qed.

Lemma mergedNotes_countId (c : Note) (pool : list Note) :
  countId (id c) (mergedNotes c pool) = Nat.max 1 (countId (id c) pool).
Proof.
  rewrite (countId_ids _ (mergedNotes c pool)), mergedNotes_ids.
  rewrite filter_app, length_app, <- countId_ids.
  destruct (decide (id c ∈ id <$> pool)) as [I | I].
  - simpl. assert (countId (id c) pool <> 0) by (by rewrite countId_zero; auto).
    lia.
  - apply countId_zero in I. rewrite I.
    rewrite filter_cons, decide_True; done.
Qed.

(** Every merged note with the current note's id is the current note. *)
Lemma mergedNotes_current (c : Note) (pool : list Note) (n : Note) :
  n ∈ mergedNotes c pool -> id n = id c -> n = c.
Proof.
  unfold mergedNotes. cbv zeta. rewrite find_replaced.
  intros I E.
  assert (R : n ∈ (fun n => if String.eqb (id n) (id c) then c else n) <$> pool
              -> n = c).
  { intros (m & -> & _)%list_elem_of_fmap.
    destruct (String.eqb_spec (id m) (id c)) as [E' | E']; [done |].
    by destruct (String.eqb_spec (id m) (id c)). }
  destruct (decide (id c ∈ id <$> pool)); [by apply R |].
  apply elem_of_app in I as [I | I]; [by apply R |].
  by apply list_elem_of_singleton in I.
Qed.

(** *** The nodes *)

Lemma makeNodes_notes (c : Note) (rnd : nat -> num) (merged : list Note) :
  note <$> makeNodes c rnd merged = merged.
Proof.
  unfold makeNodes. rewrite fmap_imap.
  rewrite (imap_ext _ (const (fun n => n))); [| done].
  rewrite imap_const. apply list_fmap_id.
Qed.

Lemma node_id_note (ns : list (Node num)) :
  node_id <$> ns = id <$> (note <$> ns).
Proof. by rewrite <- list_fmap_compose. Qed.

Lemma makeNodes_ids (c : Note) (rnd : nat -> num) (merged : list Note) :
  node_id <$> makeNodes c rnd merged = id <$> merged.
Proof. by rewrite node_id_note, makeNodes_notes. Qed.

Lemma makeNodes_isCurrent (c : Note) (rnd : nat -> num) (merged : list Note) :
  Forall (fun n => isCurrent n = String.eqb (node_id n) (id c))
         (makeNodes c rnd merged).
Proof.
  apply Forall_lookup. intros i n. unfold makeNodes.
  rewrite list_lookup_imap. destruct (merged !! i); [| done].
  by intros [= <-].
Qed.

Lemma countCurrent_notes (c : Note) (ns : list (Node num)) :
  Forall (fun n => isCurrent n = String.eqb (node_id n) (id c)) ns ->
  countCurrent ns = countId (id c) (note <$> ns).
Proof.
  unfold countCurrent, countId.
  induction 1 as [| n ns E _ IH]; [done |].
  rewrite fmap_cons, !filter_cons.
  rewrite E, eqb_decide. fold (node_id n).
  destruct (decide (node_id n = id c)) as [I | I].
  - rewrite bool_decide_eq_true_2 by done. rewrite decide_True by done.
    simpl. by rewrite IH.
  - rewrite bool_decide_eq_false_2 by done. rewrite decide_False by done.
    apply IH.
Qed.

Lemma makeNodeMap_has (ns : list (Node num)) (k : string) :
  is_Some (makeNodeMap ns !! k) <-> k ∈ node_id <$> ns.
Proof.
  unfold makeNodeMap.
  assert (G : forall m : gmap string (Node num),
            is_Some (foldl (fun m node => <[node_id node := node]> m) m ns !! k)
            <-> is_Some (m !! k) \/ k ∈ node_id <$> ns).
  { induction ns as [| n ns IH]; intros m.
    - rewrite fmap_nil. simpl. split; [auto | intros [I | I]; [done |]].
      by apply elem_of_nil in I.
    - rewrite fmap_cons, elem_of_cons. simpl. rewrite IH.
      rewrite lookup_insert_is_Some.
      destruct (decide (node_id n = k)) as [E | E]; split.
      + auto.
      + intros _. left. by left.
      + intros [[E' | [_ I]] | I]; [done | by left | by right; right].
      + intros [I | [E' | I]]; [left; right; by split | done | by right]. }
  rewrite G, lookup_empty. split; [intros [I | I] | auto]; [| done].
  by destruct I.
Qed.

(** *** The links *)

Lemma linkJoins_sym (s t : string) (l : Link) :
  linkJoins s t l = linkJoins t s l.
Proof. unfold linkJoins. apply orb_comm. Qed.

Lemma linkJoins_ends (s t : string) (l : Link) :
  linkJoins s t l = true <->
  (source l = s /\ target l = t) \/ (source l = t /\ target l = s).
Proof.
  unfold linkJoins.
  rewrite orb_true_iff, !andb_true_iff, !String.eqb_eq. tauto.
Qed.

Lemma linkJoins_same (s t : string) (l' l : Link) :
  linkJoins s t l' = true ->
  linkJoins s t l = linkJoins (source l') (target l') l.
Proof.
  intros [[<- <-] | [<- <-]]%linkJoins_ends; [done | apply linkJoins_sym].
Qed.

Lemma countJoins_ext (s t s' t' : string) (ls : list Link) :
  (forall l, linkJoins s t l = linkJoins s' t' l) ->
  countJoins s t ls = countJoins s' t' ls.
Proof.
  intros E. unfold countJoins.
  induction ls as [| l ls IH]; [done |].
  rewrite !filter_cons, E.
  destruct (decide (linkJoins s' t' l = true)); simpl; by rewrite IH.
Qed.

Lemma linkExists_count (s t : string) (ls : list Link) :
  linkExists ls s t = true <-> countJoins s t ls <> 0.
Proof.
  unfold linkExists, countJoins.
  induction ls as [| l ls IH]; [done |].
  rewrite filter_cons. cbn [existsb].
  destruct (decide (linkJoins s t l = true)) as [E | E].
  - rewrite E. simpl. split; [lia | done].
  - apply not_true_is_false in E. by rewrite E.
Qed.

Lemma countJoins_snoc (s t : string) (ls : list Link) (l : Link) :
  countJoins s t (ls ++ [l])
  = countJoins s t ls + (if linkJoins s t l then 1 else 0).
Proof.
  unfold countJoins. rewrite filter_app, length_app, filter_cons, filter_nil.
  destruct (decide (linkJoins s t l = true)) as [E | E].
  - by rewrite E.
  - apply not_true_is_false in E. by rewrite E.
Qed.

Lemma addSmartLink_atMostOnce (nodeMap : gmap string (Node num))
    (src : Node num) (ls : list Link) (sl : SmartLink) :
  atMostOnce ls -> atMostOnce (addSmartLink nodeMap src ls sl).
Proof.
  intros P s t. unfold addSmartLink.
  destruct (bool_decide _); [| apply P].
  destruct (linkExists ls (node_id src) (targetId sl)) eqn:E; [apply P |].
  rewrite countJoins_snoc.
  match goal with |- context [linkJoins s t ?l] =>
    destruct (linkJoins s t l) eqn:J end.
  - rewrite (countJoins_ext s t (node_id src) (targetId sl)).
    + destruct (linkExists_count (node_id src) (targetId sl) ls) as [_ C].
      destruct (countJoins (node_id src) (targetId sl) ls); [done |].
      rewrite C in E; done.
    + intros l. by rewrite (linkJoins_same s t _ l J).
  - specialize (P s t). lia.
Qed.

Lemma addNodeLinks_atMostOnce (nodeMap : gmap string (Node num))
    (ls : list Link) (n : Node num) :
  atMostOnce ls -> atMostOnce (addNodeLinks nodeMap ls n).
Proof.
  intros P. unfold addNodeLinks.
  destruct (metadata (note n) ≫= smartLinks); [| done].
  apply foldl_invariant; [done |].
  intros; by apply addSmartLink_atMostOnce.
Qed.

Lemma makeLinks_atMostOnce (ns : list (Node num)) : atMostOnce (makeLinks ns).
Proof.
  unfold makeLinks. apply foldl_invariant.
  - intros s t. unfold countJoins. simpl. lia.
  - intros; by apply addNodeLinks_atMostOnce.
Qed.

Lemma addSmartLink_keeps (nodeMap : gmap string (Node num)) (src : Node num)
    (ls : list Link) (sl : SmartLink) (s t : string) :
  linkExists ls s t = true ->
  linkExists (addSmartLink nodeMap src ls sl) s t = true.
Proof.
  intros E. unfold addSmartLink.
  destruct (bool_decide _); [| done].
  destruct (linkExists ls (node_id src) (targetId sl)); [done |].
  unfold linkExists in *. by rewrite existsb_app, E.
Qed.

Lemma addSmartLink_joins (nodeMap : gmap string (Node num)) (src : Node num)
    (ls : list Link) (sl : SmartLink) :
  is_Some (nodeMap !! targetId sl) ->
  linkExists (addSmartLink nodeMap src ls sl) (node_id src) (targetId sl) = true.
Proof.
  intros I. unfold addSmartLink.
  rewrite bool_decide_eq_true_2 by done.
  destruct (linkExists ls (node_id src) (targetId sl)) eqn:E; [done |].
  unfold linkExists. rewrite existsb_app. cbn [existsb].
  unfold linkJoins at 2. simpl. rewrite !String.eqb_refl. simpl.
  by rewrite orb_true_r.
Qed.

Lemma addNodeLinks_keeps (nodeMap : gmap string (Node num)) (ls : list Link)
    (n : Node num) (s t : string) :
  linkExists ls s t = true ->
  linkExists (addNodeLinks nodeMap ls n) s t = true.
Proof.
  intros E. unfold addNodeLinks.
  destruct (metadata (note n) ≫= smartLinks); [| done].
  apply (foldl_invariant (fun ls => linkExists ls s t = true)); [done |].
  intros; by apply addSmartLink_keeps.
Qed.

Lemma addNodeLinks_joins (nodeMap : gmap string (Node num)) (ls : list Link)
    (n : Node num) (sls : list SmartLink) (sl : SmartLink) :
  metadata (note n) ≫= smartLinks = Some sls ->
  sl ∈ sls ->
  is_Some (nodeMap !! targetId sl) ->
  linkExists (addNodeLinks nodeMap ls n) (node_id n) (targetId sl) = true.
Proof.
  intros E I S. unfold addNodeLinks. rewrite E.
  apply (foldl_established
           (fun ls => linkExists ls (node_id n) (targetId sl) = true)
           (fun sl' => sl' = sl)).
  - intros a x ->. by apply addSmartLink_joins.
  - intros; by apply addSmartLink_keeps.
  - eauto.
Qed.

Lemma makeLinks_joins (ns : list (Node num)) (k t : string) :
  declares (note <$> ns) k t -> t ∈ node_id <$> ns ->
  linkExists (makeLinks ns) k t = true.
Proof.
  intros (n' & (n & -> & In)%list_elem_of_fmap & <- & Isl) It.
  unfold linksTo in Isl.
  destruct (metadata (note n) ≫= smartLinks) as [sls |] eqn:E;
    [| by apply elem_of_nil in Isl].
  apply list_elem_of_fmap in Isl as (sl & -> & Isl).
  unfold makeLinks.
  apply (foldl_established
           (fun ls => linkExists ls (node_id n) (targetId sl) = true)
           (fun n' => n' = n)).
  - intros a x ->. eapply addNodeLinks_joins; [done | done |].
    by apply makeNodeMap_has.
  - intros; by apply addNodeLinks_keeps.
  - eauto.
Qed.

(** A declared link whose target is a node gives exactly one link. *)
Lemma makeLinks_exactly_one (ns : list (Node num)) (k t : string) :
  declares (note <$> ns) k t -> t ∈ node_id <$> ns ->
  countJoins k t (makeLinks ns) = 1.
Proof.
  intros D I.
  pose proof (makeLinks_atMostOnce ns k t) as Le.
  pose proof (makeLinks_joins ns k t D I) as Ex.
  apply linkExists_count in Ex. lia.
Qed.

Lemma declares_is_note (notes : list Note) (k t : string) :
  declares notes k t -> k ∈ id <$> notes.
Proof.
  intros (n & I & <- & _). apply list_elem_of_fmap. eauto.
Qed.

Lemma graphData_exactly_one (c : Note) (pool : list Note) (rnd : nat -> num)
    (k t : string) :
  declares (mergedNotes c pool) k t -> t ∈ id <$> mergedNotes c pool ->
  countJoins k t (links (graphData c pool rnd)) = 1.
Proof.
  intros D I. unfold graphData. cbn [links].
  apply makeLinks_exactly_one.
  - by rewrite makeNodes_notes.
  - by rewrite makeNodes_ids.
Qed.

Lemma linksTo_single (n : Note) (t : string) :
  linksTo n = [t] ->
  exists sl, metadata n ≫= smartLinks = Some [sl] /\ targetId sl = t.
Proof.
  unfold linksTo. destruct (metadata n ≫= smartLinks) as [sls |]; [| done].
  destruct sls as [| sl [| sl' sls]]; [done | | done].
  intros [= <-]. eauto.
Qed.

(** The scenario of three notes linked in a cycle. *)
Lemma cycle_graph (rnd : nat -> num) (a b c : Note) :
  id a <> id b -> id b <> id c -> id a <> id c ->
  linksTo a = [id b] -> linksTo b = [id c] -> linksTo c = [id a] ->
  length (nodes (graphData a [a; b; c] rnd)) = 3 /\
  (fun l => (source l, target l)) <$> links (graphData a [a; b; c] rnd)
  = [(id a, id b); (id b, id c); (id c, id a)].
Proof.
  intros Nab Nbc Nac
    (la & Ea & Ta)%linksTo_single (lb & Eb & Tb)%linksTo_single
    (lc & Ec & Tc)%linksTo_single.
  assert (M : mergedNotes a [a; b; c] = [a; b; c]).
  { unfold mergedNotes. cbn [fmap list_fmap List.find].
    rewrite String.eqb_refl.
    rewrite (proj2 (String.eqb_neq (id b) (id a))) by congruence.
    rewrite (proj2 (String.eqb_neq (id c) (id a))) by congruence.
    by rewrite ?String.eqb_refl. }
  unfold graphData. rewrite M. cbn [nodes links]. split; [done |].
  set (ns := makeNodes a rnd [a; b; c]).
  assert (Has : forall k, k ∈ [id a; id b; id c] ->
                          is_Some (makeNodeMap ns !! k)).
  { intros k I. apply makeNodeMap_has. unfold ns. by rewrite makeNodes_ids. }
  unfold makeLinks. generalize (makeNodeMap ns) Has. intros nm Hnm.
  unfold ns, makeNodes. cbn [imap foldl]. unfold compose. cbv beta.
  unfold addNodeLinks. cbn [note makeNode]. rewrite Ea, Eb, Ec.
  cbn [foldl]. unfold addSmartLink, node_id. cbn [note makeNode].
  rewrite Ta, Tb, Tc.
  rewrite !bool_decide_eq_true_2 by (apply Hnm; set_solver).
  assert (Eab := proj2 (String.eqb_neq (id a) (id b)) Nab).
  assert (Ebc := proj2 (String.eqb_neq (id b) (id c)) Nbc).
  assert (Eac := proj2 (String.eqb_neq (id a) (id c)) Nac).
  assert (Eba := proj2 (String.eqb_neq (id b) (id a)) (not_eq_sym Nab)).
  assert (Ecb := proj2 (String.eqb_neq (id c) (id b)) (not_eq_sym Nbc)).
  assert (Eca := proj2 (String.eqb_neq (id c) (id a)) (not_eq_sym Nac)).
  unfold linkExists, linkJoins.
  repeat (cbn [existsb app source target andb orb];
          rewrite ?String.eqb_refl, ?Eab, ?Ebc, ?Eac, ?Eba, ?Ecb, ?Eca).
  reflexivity.
Qed.

(** ** The claims about the graph that is built *)

(** C3: the links of a built graph join every unordered pair of identifiers
    at most once; two notes that declare links to each other get exactly
    one link; three notes linked in a cycle get three nodes and the three
    links of the cycle, not six. *)
Theorem links_once_per_pair :
  (forall (c : Note) (pool : list Note) (rnd : nat -> num),
      atMostOnce (links (graphData c pool rnd))) /\
  (forall (c : Note) (pool : list Note) (rnd : nat -> num) (a b : string),
      declares (mergedNotes c pool) a b ->
      declares (mergedNotes c pool) b a ->
      countJoins a b (links (graphData c pool rnd)) = 1) /\
  (forall (rnd : nat -> num) (a b c : Note),
      id a <> id b -> id b <> id c -> id a <> id c ->
      linksTo a = [id b] -> linksTo b = [id c] -> linksTo c = [id a] ->
      length (nodes (graphData a [a; b; c] rnd)) = 3 /\
      length (links (graphData a [a; b; c] rnd)) = 3).
Proof.
  split; [| split].
  - intros c pool rnd. apply makeLinks_atMostOnce.
  - intros c pool rnd a b Dab Dba. apply graphData_exactly_one; [done |].
    by apply declares_is_note in Dba.
  - intros rnd a b c Nab Nbc Nac La Lb Lc.
    destruct (cycle_graph rnd a b c Nab Nbc Nac La Lb Lc) as [Ln Ll].
    split; [done |].
    apply (f_equal length) in Ll. by rewrite length_fmap in Ll.
Qed.

(** C4 (amended): when at most one entry of the pool carries the current
    note's identifier (none is allowed), exactly one node is marked current,
    and a node marked current carries the current note itself. *)
Theorem one_current_node (c : Note) (pool : list Note) (rnd : nat -> num) :
  countId (id c) pool <= 1 ->
  countCurrent (nodes (graphData c pool rnd)) = 1 /\
  Forall (fun n => isCurrent n = true -> node_id n = id c /\ note n = c)
         (nodes (graphData c pool rnd)).
Proof.
  intros Le. unfold graphData. cbn [nodes].
  pose proof (makeNodes_isCurrent c rnd (mergedNotes c pool)) as Cur.
  split.
  - rewrite (countCurrent_notes c) by done.
    rewrite makeNodes_notes, mergedNotes_countId. lia.
  - apply Forall_forall. intros n I E.
    rewrite Forall_forall in Cur. rewrite (Cur n I) in E.
    apply String.eqb_eq in E. split; [done |].
    apply (mergedNotes_current c pool); [| done].
    rewrite <- (makeNodes_notes c rnd (mergedNotes c pool)).
    apply list_elem_of_fmap. eauto.
Qed.

(** In general the nodes marked current are as many as the pool entries
    with the current note's identifier, and one when there is none. *)
Lemma countCurrent_graphData (c : Note) (pool : list Note) (rnd : nat -> num) :
  countCurrent (nodes (graphData c pool rnd)) = Nat.max 1 (countId (id c) pool).
Proof.
  unfold graphData. cbn [nodes].
  rewrite (countCurrent_notes c) by apply makeNodes_isCurrent.
  by rewrite makeNodes_notes, mergedNotes_countId.
Qed.

(** C7 (amended): a note of the graph that declares a smart link to its own
    identifier gets a link from itself to itself, exactly one. *)
Theorem self_link_kept (c : Note) (pool : list Note) (rnd : nat -> num)
    (k : string) :
  declares (mergedNotes c pool) k k ->
  countJoins k k (links (graphData c pool rnd)) = 1 /\
  exists l, l ∈ links (graphData c pool rnd) /\ source l = k /\ target l = k.
Proof.
  intros D.
  assert (C : countJoins k k (links (graphData c pool rnd)) = 1).
  { apply graphData_exactly_one; [done |]. by apply declares_is_note in D. }
  split; [done |].
  unfold countJoins in C.
  destruct (filter _ _) as [| l ls] eqn:F; [done |].
  assert (I : l ∈ filter (fun l => linkJoins k k l = true)
                         (links (graphData c pool rnd))).
  { rewrite F. apply list_elem_of_here. }
  apply list_elem_of_filter in I as [J I].
  exists l. split; [done |].
  apply linkJoins_ends in J. tauto.
Qed.

Lemma graphData_ids (c : Note) (pool : list Note) (rnd : nat -> num) :
  node_id <$> nodes (graphData c pool rnd)
  = (id <$> pool) ++ (if decide (id c ∈ id <$> pool) then [] else [id c]).
Proof.
  unfold graphData. cbn [nodes]. by rewrite makeNodes_ids, mergedNotes_ids.
Qed.

(** The node identifiers repeat only when the pool's do. *)
Lemma node_ids_repeat_only_with_pool (c : Note) (pool : list Note)
    (rnd : nat -> num) :
  NoDup (node_id <$> nodes (graphData c pool rnd)) -> NoDup (id <$> pool).
Proof. rewrite graphData_ids. by intros [N _]%NoDup_app. Qed.

(** C8 (amended): when the identifiers of the pool are pairwise distinct, so
    are the identifiers of the nodes. *)
Theorem node_ids_distinct (c : Note) (pool : list Note) (rnd : nat -> num) :
  NoDup (id <$> pool) ->
  NoDup (node_id <$> nodes (graphData c pool rnd)).
Proof.
  intros N. rewrite graphData_ids.
  apply NoDup_app. split; [done |]. split.
  - intros k I. destruct (decide (id c ∈ id <$> pool)) as [I' | I'].
    + apply not_elem_of_nil.
    + intros ->%list_elem_of_singleton. done.
  - destruct (decide (id c ∈ id <$> pool)); [apply NoDup_nil_2 |].
    apply NoDup_singleton.
Qed.

End BuildFacts.

(** ** Builds on sample inputs (binary64) *)

Local Open Scope string_scope.

(** Two notes that link to each other, and three notes linked in a cycle. *)
Lemma links_once_per_pair_witness :
  countJoins "A" "B"
    (links (graphData (num := float) (sampleNote "A" "" ["B"])
              [sampleNote "A" "" ["B"]; sampleNote "B" "" ["A"]] sampleRandom))
  = 1 /\
  length (links (graphData (num := float) (sampleNote "A" "" ["B"])
                   [sampleNote "A" "" ["B"]; sampleNote "B" "" ["C"];
                    sampleNote "C" "" ["A"]] sampleRandom))
  = 3.
Proof.
  destruct (links_once_per_pair (num := float)) as (_ & Two & Three).
  split.
  - apply Two.
    + exists (sampleNote "A" "" ["B"]). split; [| split; [done |]].
      * vm_compute. apply list_elem_of_here.
      * vm_compute. apply list_elem_of_here.
    + exists (sampleNote "B" "" ["A"]). split; [| split; [done |]].
      * vm_compute. apply list_elem_of_further, list_elem_of_here.
      * vm_compute. apply list_elem_of_here.
  - apply Three; done.
Defined.

(** C4, counterexample: a pool with two entries that carry the current
    note's identifier gives two nodes marked current. *)
Lemma two_current_nodes :
  countCurrent
    (nodes (graphData (num := float) (sampleNote "A" "new" [])
              [sampleNote "A" "old" []; sampleNote "A" "older" []]
              sampleRandom))
  = 2.
Proof. vm_compute. reflexivity. Qed.

Lemma one_current_node_witness :
  countId "A" [sampleNote "B" "" []] <= 1 /\
  countCurrent
    (nodes (graphData (num := float) (sampleNote "A" "" [])
              [sampleNote "B" "" []] sampleRandom)) = 1.
Proof.
  assert (Le : countId "A" [sampleNote "B" "" []] <= 1) by (vm_compute; lia).
  split; [exact Le |].
  exact (proj1 (one_current_node (num := float) (sampleNote "A" "" [])
                  [sampleNote "B" "" []] sampleRandom Le)).
Defined.

(** C7, counterexample: a note that links to itself gets a self-edge. *)
Lemma self_edge_built :
  exists l,
    l ∈ links (graphData (num := float) (sampleNote "A" "" ["A"]) []
                 sampleRandom)
    /\ source l = target l.
Proof.
  exists {| source := "A"; target := "A"; link_reason := Some "related" |}.
  split; [| done]. vm_compute. apply list_elem_of_here.
Qed.

Lemma self_link_kept_witness :
  declares (mergedNotes (sampleNote "A" "" ["A"]) []) "A" "A" /\
  countJoins "A" "A"
    (links (graphData (num := float) (sampleNote "A" "" ["A"]) []
              sampleRandom)) = 1.
Proof.
  assert (D : declares (mergedNotes (sampleNote "A" "" ["A"]) []) "A" "A").
  { exists (sampleNote "A" "" ["A"]). split; [| split; [done |]].
    - vm_compute. apply list_elem_of_here.
    - vm_compute. apply list_elem_of_here. }
  split; [exact D |].
  exact (proj1 (self_link_kept (num := float) (sampleNote "A" "" ["A"]) []
                  sampleRandom "A" D)).
Defined.

(** C8, counterexample: a pool that lists a note twice gives two nodes with
    the same identifier. *)
Lemma node_ids_repeat :
  ~ NoDup (node_id <$>
             nodes (graphData (num := float) (sampleNote "A" "" [])
                      [sampleNote "B" "" []; sampleNote "B" "" []]
                      sampleRandom)).
Proof.
  assert (E : node_id <$>
                nodes (graphData (num := float) (sampleNote "A" "" [])
                         [sampleNote "B" "" []; sampleNote "B" "" []]
                         sampleRandom)
              = ["B"; "B"; "A"]) by (vm_compute; reflexivity).
  rewrite E. intros [N _]%NoDup_cons. apply N, list_elem_of_here.
Qed.

Lemma node_ids_distinct_witness :
  NoDup (id <$> [sampleNote "B" "" []; sampleNote "C" "" []]) /\
  NoDup (node_id <$>
           nodes (graphData (num := float) (sampleNote "A" "" [])
                    [sampleNote "B" "" []; sampleNote "C" "" []]
                    sampleRandom)).
Proof.
  assert (N : NoDup (id <$> [sampleNote "B" "" []; sampleNote "C" "" []])).
  { apply (bool_decide_unpack _). vm_compute. exact I. }
  split; [exact N |].
  exact (node_ids_distinct (num := float) (sampleNote "A" "" [])
           [sampleNote "B" "" []; sampleNote "C" "" []] sampleRandom N).
Defined.

(** * Facts about the physics step *)

Section StepFacts.
Context {num : Type} `{Number num}.
Local Open Scope num_scope.

Lemma stepNode_identity (fr : Frame num) (ls : list Link)
    (ns : list (Node num)) (i : nat) (node : Node num) :
  sameIdentity node (stepNode fr ls ns i node).
Proof. unfold stepNode. by destruct (bool_decide _). Qed.

(** The branch of the dragged node. *)
Lemma stepNode_dragged (fr : Frame num) (ls : list Link)
    (ns : list (Node num)) (i : nat) (node : Node num) :
  draggingNode fr = Some i ->
  stepNode fr ls ns i node
  = {| note := note node; x := x node; y := y node;
       vx := (mouseX fr - x node) * ndec 1 1;
       vy := (mouseY fr - y node) * ndec 1 1;
       radius := radius node; isCurrent := isCurrent node;
       color := color node |}.
Proof. intros D. unfold stepNode. by rewrite bool_decide_eq_true_2. Qed.

Lemma stepAt_length (fr : Frame num) (ls : list Link) (ns : list (Node num))
    (i : nat) :
  length (stepAt fr ls ns i) = length ns.
Proof. unfold stepAt. destruct (ns !! i); [apply length_insert | done]. Qed.

Lemma stepAt_other (fr : Frame num) (ls : list Link) (ns : list (Node num))
    (i j : nat) :
  i <> j -> stepAt fr ls ns i !! j = ns !! j.
Proof.
  intros N. unfold stepAt. destruct (ns !! i); [| done].
  by apply list_lookup_insert_ne.
Qed.

Lemma stepAt_same (fr : Frame num) (ls : list Link) (ns : list (Node num))
    (i : nat) (node : Node num) :
  ns !! i = Some node ->
  stepAt fr ls ns i !! i = Some (stepNode fr ls ns i node).
Proof.
  intros E. unfold stepAt. rewrite E.
  apply list_lookup_insert_eq. by apply lookup_lt_Some in E.
Qed.

(** Steps at other indices leave a node alone. *)
Lemma steps_untouched (fr : Frame num) (ls : list Link) (l : list nat)
    (ns : list (Node num)) (j : nat) :
  j ∉ l -> foldl (stepAt fr ls) ns l !! j = ns !! j.
Proof.
  revert ns. induction l as [| i l IH]; intros ns N; [done |].
  apply not_elem_of_cons in N as [Nj Nl]. simpl.
  rewrite IH by done. apply stepAt_other. congruence.
Qed.

Lemma steps_length (fr : Frame num) (ls : list Link) (l : list nat)
    (ns : list (Node num)) :
  length (foldl (stepAt fr ls) ns l) = length ns.
Proof.
  revert ns. induction l as [| i l IH]; intros ns; [done |].
  simpl. by rewrite IH, stepAt_length.
Qed.

Lemma physicsStep_length (fr : Frame num) (ls : list Link)
    (ns : list (Node num)) :
  length (physicsStep fr ls ns) = length ns.
Proof. apply steps_length. Qed.

Lemma stepUpTo_later (fr : Frame num) (ls : list Link) (ns : list (Node num))
    (k j : nat) :
  k <= j -> stepUpTo fr ls ns k !! j = ns !! j.
Proof.
  intros Le. apply steps_untouched.
  rewrite elem_of_seq. lia.
Qed.

(** The node a step leaves at index [i]: the body of the loop run on the
    node, against the array as the nodes before it left it. *)
Lemma physicsStep_lookup (fr : Frame num) (ls : list Link)
    (ns : list (Node num)) (i : nat) (node : Node num) :
  ns !! i = Some node ->
  physicsStep fr ls ns !! i
  = Some (stepNode fr ls (stepUpTo fr ls ns i) i node).
Proof.
  intros E. pose proof (lookup_lt_Some _ _ _ E) as Lt.
  unfold physicsStep, stepUpTo.
  replace (length ns) with (i + S (length ns - S i))%nat by lia.
  rewrite seq_app, foldl_app. cbn [seq foldl].
  rewrite steps_untouched by (rewrite elem_of_seq; lia).
  apply stepAt_same.
  rewrite steps_untouched by (rewrite elem_of_seq; lia). done.
Qed.

(** A node that has had its turn is read as the step leaves it. *)
Lemma stepUpTo_earlier (fr : Frame num) (ls : list Link)
    (ns : list (Node num)) (k i : nat) :
  (i < k)%nat -> (k <= length ns)%nat ->
  stepUpTo fr ls ns k !! i = physicsStep fr ls ns !! i.
Proof.
  intros Lt Le. unfold physicsStep, stepUpTo.
  replace (length ns) with (k + (length ns - k))%nat by lia.
  rewrite seq_app, foldl_app.
  rewrite (steps_untouched fr ls (seq (0 + k) (length ns - k)))
    by (rewrite elem_of_seq; lia).
  done.
Qed.

Lemma physicsStep_identity (fr : Frame num) (ls : list Link)
    (ns : list (Node num)) (i : nat) (node : Node num) :
  ns !! i = Some node ->
  exists node', physicsStep fr ls ns !! i = Some node' /\
                sameIdentity node node'.
Proof.
  intros E. eexists. split; [by apply physicsStep_lookup |].
  apply stepNode_identity.
Qed.

Lemma physicsStep_dragged (fr : Frame num) (ls : list Link)
    (ns : list (Node num)) (i : nat) (node : Node num) :
  draggingNode fr = Some i ->
  ns !! i = Some node ->
  physicsStep fr ls ns !! i
  = Some {| note := note node; x := x node; y := y node;
            vx := (mouseX fr - x node) * ndec 1 1;
            vy := (mouseY fr - y node) * ndec 1 1;
            radius := radius node; isCurrent := isCurrent node;
            color := color node |}.
Proof.
  intros D E. rewrite (physicsStep_lookup fr ls ns i node E).
  by rewrite stepNode_dragged.
Qed.

Lemma simulate_snoc (ls : list Link) (frs : list (Frame num)) (fr : Frame num)
    (ns : list (Node num)) :
  simulate ls (frs ++ [fr]) ns = physicsStep fr ls (simulate ls frs ns).
Proof. unfold simulate. by rewrite foldl_app. Qed.

Lemma simulate_identity (ls : list Link) (frs : list (Frame num))
    (ns : list (Node num)) (i : nat) (node : Node num) :
  ns !! i = Some node ->
  exists node', simulate ls frs ns !! i = Some node' /\
                sameIdentity node node'.
Proof.
  intros E. induction frs as [| fr frs IH] using rev_ind.
  - exists node. by repeat split.
  - destruct IH as (n1 & E1 & I1). rewrite simulate_snoc.
    destruct (physicsStep_identity fr ls _ i n1 E1) as (n2 & E2 & I2).
    exists n2. split; [done |].
    destruct I1 as (? & ? & ? & ?), I2 as (? & ? & ? & ?).
    repeat split; congruence.
Qed.

End StepFacts.

(** * Facts about dragging *)

Section DragFacts.
Context {num : Type} `{Number num}.
Local Open Scope num_scope.

Lemma samePlace_refl (n : Node num) : samePlace n n.
Proof. by repeat split. Qed.

Lemma samePlace_trans (n1 n2 n3 : Node num) :
  samePlace n1 n2 -> samePlace n2 n3 -> samePlace n1 n3.
Proof.
  intros (? & ? & ? & ? & ? & ?) (? & ? & ? & ? & ? & ?).
  repeat split; congruence.
Qed.

Lemma samePlace_pointerDist (n n' : Node num) (px py : num) :
  samePlace n n' -> pointerDist n' px py = pointerDist n px py.
Proof. intros (Ex & Ey & _). unfold pointerDist. by rewrite Ex, Ey. Qed.

(** While a node is dragged, no event moves it. *)
Lemma handle_dragged (c : Note) (v : View num) (e : Event num) (i : nat)
    (node : Node num) :
  draggingNode (frame v) = Some i ->
  nodes (graph v) !! i = Some node ->
  exists node', nodes (graph (handle c v e).1) !! i = Some node' /\
                samePlace node node'.
Proof.
  intros D E. destruct e as [px py | px py | px py | | w h |]; cbn [handle fst].
  - unfold handleMouseDown. exists node. split; [| apply samePlace_refl].
    by destruct (hitNode _ _ _) as [[j ?] |].
  - exists node. split; [done | apply samePlace_refl].
  - exists node. split; [| apply samePlace_refl].
    unfold handleMouseUp. rewrite D, E.
    destruct (_ <? _); [destruct (negb _) |]; done.
  - exists node. split; [done | apply samePlace_refl].
  - exists node. split; [done | apply samePlace_refl].
  - unfold animate. cbn [graph nodes].
    rewrite (physicsStep_dragged _ _ _ i node D E).
    eexists. split; [done |]. by repeat split.
Qed.

(** A quiet event keeps the drag and calls nothing. *)
Lemma handle_quiet (c : Note) (v : View num) (e : Event num) :
  quiet e ->
  draggingNode (frame (handle c v e).1) = draggingNode (frame v) /\
  (handle c v e).2 = None.
Proof. by destruct e. Qed.

(** The release that follows a drag of the node [X] through quiet events. *)
Lemma release_after_drag (c : Note) (mid : list (Event num)) (v : View num)
    (i : nat) (X : Node num) (qx qy : num) :
  draggingNode (frame v) = Some i ->
  nodes (graph v) !! i = Some X ->
  Forall quiet mid ->
  (run c v (mid ++ [MouseUp qx qy])).2
  = if (pointerDist X qx qy <? radius X + nconst 10)
       && negb (String.eqb (node_id X) (id c))
    then [node_id X] else [].
Proof.
  intros D E Q. revert v X D E.
  induction Q as [| e mid Qe _ IH]; intros v X D E.
  - cbn [app run handle snd fst]. unfold handleMouseUp. rewrite D, E.
    destruct (_ <? _); [destruct (negb _) |]; done.
  - cbn [app run].
    destruct (handle_quiet c v e Qe) as [D' ->].
    destruct (handle_dragged c v e i X D E) as (X' & E' & S').
    rewrite (IH _ X') by congruence. cbn [snd].
    rewrite (samePlace_pointerDist X X' qx qy S').
    destruct S' as (_ & _ & Hn & -> & _).
    unfold node_id. by rewrite Hn.
Qed.

Lemma run_press (c : Note) (v : View num) (px py : num)
    (es : list (Event num)) :
  (run c v (MouseDown px py :: es)).2
  = (run c (handleMouseDown v px py) es).2.
Proof. reflexivity. Qed.

(** The press that starts the drag. *)
Lemma handleMouseDown_hit (v : View num) (px py : num) (i : nat)
    (X : Node num) :
  hitNode (nodes (graph v)) px py = Some (i, X) ->
  draggingNode (frame (handleMouseDown v px py)) = Some i /\
  nodes (graph (handleMouseDown v px py)) !! i = Some X /\
  Is_true (pointerDist X px py <? radius X + nconst 5).
Proof.
  intros Hit. unfold handleMouseDown. rewrite Hit. cbn [frame graph setDragging draggingNode].
  unfold hitNode in Hit. apply list_find_Some in Hit as (E & P & _). done.
Qed.

(** A press on [X], quiet events, a release: what [onSelectNote] is called
    with. *)
Lemma press_then_release (c : Note) (v : View num) (px py : num) (i : nat)
    (X : Node num) (mid : list (Event num)) (qx qy : num) :
  flagged c (nodes (graph v)) ->
  hitNode (nodes (graph v)) px py = Some (i, X) ->
  Forall quiet mid ->
  (run c v (MouseDown px py :: mid ++ [MouseUp qx qy])).2
  = if (pointerDist X qx qy <? radius X + nconst 10) && negb (isCurrent X)
    then [node_id X] else [].
Proof.
  intros Cur Hit Q.
  destruct (handleMouseDown_hit v px py i X Hit) as (D & E & _).
  rewrite run_press, (release_after_drag c mid _ i X qx qy D E Q).
  unfold flagged in Cur. rewrite Forall_forall in Cur. rewrite (Cur X); [done |].
  unfold hitNode in Hit. apply list_find_Some in Hit as (E' & _).
  by apply list_elem_of_lookup_2 in E'.
Qed.

(** The marks [graphData] sets stay right whatever happens. *)
Lemma graphData_flagged (c : Note) (pool : list Note) (rnd : nat -> num) :
  flagged c (nodes (graphData c pool rnd)).
Proof. apply makeNodes_isCurrent. Qed.

Lemma physicsStep_flagged (c : Note) (fr : Frame num) (ls : list Link)
    (ns : list (Node num)) :
  flagged c ns -> flagged c (physicsStep fr ls ns).
Proof.
  unfold flagged. rewrite !Forall_lookup. intros F i n' E'.
  destruct (lookup_lt_is_Some_2 ns i) as [node E].
  { rewrite <- (physicsStep_length fr ls ns). by eapply lookup_lt_Some. }
  rewrite (physicsStep_lookup fr ls ns i node E) in E'.
  injection E' as <-.
  destruct (stepNode_identity fr ls (stepUpTo fr ls ns i) i node)
    as (Hn & _ & Hc & _).
  unfold node_id. rewrite Hn, Hc. by apply (F i).
Qed.

Lemma handle_flagged (c : Note) (v : View num) (e : Event num) :
  flagged c (nodes (graph v)) -> flagged c (nodes (graph (handle c v e).1)).
Proof.
  intros F. destruct e as [px py | px py | px py | | w h |]; cbn [handle fst].
  - unfold handleMouseDown. by destruct (hitNode _ _ _) as [[j ?] |].
  - done.
  - unfold handleMouseUp. destruct (draggingNode (frame v)); [| done].
    destruct (nodes (graph v) !! n); [| done].
    destruct (_ <? _); [destruct (negb _) |]; done.
  - done.
  - done.
  - by apply physicsStep_flagged.
Qed.

Lemma run_flagged (c : Note) (es : list (Event num)) (v : View num) :
  flagged c (nodes (graph v)) -> flagged c (nodes (graph (run c v es).1)).
Proof.
  revert v. induction es as [| e es IH]; intros v F; [done |].
  cbn [run fst]. by apply IH, handle_flagged.
Qed.

(** ** The claims about the dragged node *)

(** C10: while a node is dragged, a physics step writes its velocity and
    nothing else, whatever the canvas size and the node's place (no
    boundary test), and no sequence of events during which it stays the
    dragged node moves it. *)
Theorem dragged_node_keeps_position (c : Note) (v : View num) (i : nat)
    (node : Node num) :
  draggingNode (frame v) = Some i ->
  nodes (graph v) !! i = Some node ->
  physicsStep (frame v) (links (graph v)) (nodes (graph v)) !! i
  = Some {| note := note node; x := x node; y := y node;
            vx := (mouseX (frame v) - x node) * ndec 1 1;
            vy := (mouseY (frame v) - y node) * ndec 1 1;
            radius := radius node; isCurrent := isCurrent node;
            color := color node |} /\
  forall es : list (Event num),
    (forall k, draggingNode (frame (run c v (take k es)).1) = Some i) ->
    exists node', nodes (graph (run c v es).1) !! i = Some node' /\
                  x node' = x node /\ y node' = y node.
Proof.
  intros D E. split; [by apply physicsStep_dragged |].
  intros es. revert v node D E.
  induction es as [| e es IH]; intros v node D E Stay.
  - exists node. done.
  - cbn [run fst].
    destruct (handle_dragged c v e i node D E) as (n1 & E1 & S1).
    destruct (IH (handle c v e).1 n1) as (n2 & E2 & Ex & Ey).
    + by specialize (Stay 1).
    + done.
    + intros k. by specialize (Stay (S k)).
    + exists n2. destruct S1 as (? & ? & _). split; [done |].
      split; congruence.
Qed.

(** The frame of a dragged node, after the pointer has moved to
    [(px, py)]. *)
Lemma dragged_velocity (v : View num) (px py : num) (i : nat)
    (node : Node num) :
  draggingNode (frame v) = Some i ->
  nodes (graph v) !! i = Some node ->
  exists node',
    nodes (graph (animate (handleMouseMove v px py))) !! i = Some node' /\
    vx node' = (px - x node) * ndec 1 1 /\
    vy node' = (py - y node) * ndec 1 1.
Proof.
  intros D E. unfold animate, handleMouseMove. cbn [graph nodes links frame].
  erewrite physicsStep_dragged; [| done | done].
  eexists. split; [done |]. done.
Qed.

(** The frame of a dragged node, whatever else the frame reads. *)
Lemma dragged_velocity_alone (fr : Frame num) (ls : list Link)
    (ns : list (Node num)) (i : nat) (node : Node num) :
  draggingNode fr = Some i ->
  ns !! i = Some node ->
  exists node',
    physicsStep fr ls ns !! i = Some node' /\
    vx node' = (mouseX fr - x node) * ndec 1 1 /\
    vy node' = (mouseY fr - y node) * ndec 1 1.
Proof.
  intros D E. rewrite (physicsStep_dragged fr ls ns i node D E).
  eexists. split; [done |]. done.
Qed.

End DragFacts.

(** * Facts that hold in real arithmetic and on binary64 alike *)

Lemma SFcompare_irrefl (f : SpecFloat.spec_float) :
  SpecFloat.SFcompare f f <> Some Lt.
Proof.
  destruct f as [s | s | | s m e]; cbn.
  - discriminate.
  - destruct s; discriminate.
  - discriminate.
  - rewrite Z.compare_refl, Pos.compare_cont_refl. destruct s; discriminate.
Qed.

Lemma float_laws : NumberLaws float.
Proof.
  split.
  - intros a. cbn. rewrite FloatAxioms.ltb_spec. unfold SpecFloat.SFltb.
    pose proof (SFcompare_irrefl (FloatOps.Prim2SF a)) as N.
    destruct (SpecFloat.SFcompare _ _) as [[| |] |]; congruence.
  - vm_compute. reflexivity.
Qed.

Lemma R_laws : NumberLaws R.
Proof.
  split.
  - intros a. cbn. destruct (Rlt_dec a a); [lra | done].
  - cbn. destruct (Req_dec_T 1 0); [lra | done].
Qed.

#[export] Existing Instance float_laws.
#[export] Existing Instance R_laws.

Section LawfulFacts.
Context {num : Type} `{NumberLaws num}.
Local Open Scope num_scope.

(** The repulsion never divides by 0, by NaN or by less than 1. *)
Lemma repulsionDist_divisor (dx dy : num) :
  nfalsy (repulsionDist dx dy) = false /\
  (repulsionDist dx dy <? nconst 1) = false.
Proof.
  unfold repulsionDist, distOr1, nor.
  destruct (nfalsy (nsqrt (dx * dx + dy * dy))) eqn:F.
  - rewrite nlt_irrefl. split; [apply one_truthy | apply nlt_irrefl].
  - destruct (nsqrt (dx * dx + dy * dy) <? nconst 1) eqn:L.
    + split; [apply one_truthy | apply nlt_irrefl].
    + done.
Qed.

Lemma bounce_tests (dim p pos vel : num) :
  (dim - p <? p) = false ->
  ((bounce dim p pos vel).1 <? p) = false /\
  ((bounce dim p pos vel).1 >? dim - p) = false.
Proof.
  intros Room. unfold bounce.
  destruct (pos <? p) eqn:Lo; cbn [fst snd].
  - destruct (p >? dim - p) eqn:Hi; cbn [fst].
    + split; [done | apply nlt_irrefl].
    + split; [apply nlt_irrefl | done].
  - destruct (pos >? dim - p) eqn:Hi; cbn [fst].
    + split; [done | apply nlt_irrefl].
    + done.
Qed.

(** After its step a node that is not dragged passes none of the four
    boundary tests, when the canvas has room for it. *)
Lemma stepNode_inBounds (fr : Frame num) (ls : list Link)
    (ns : list (Node num)) (i : nat) (node : Node num) :
  draggingNode fr <> Some i ->
  (width fr - (radius node + nconst 10) <? radius node + nconst 10) = false ->
  (height fr - (radius node + nconst 10) <? radius node + nconst 10) = false ->
  inBounds fr (stepNode fr ls ns i node) = true.
Proof.
  intros D Rw Rh. unfold stepNode. rewrite bool_decide_eq_false_2 by done.
  unfold inBounds. cbn [x y radius].
  match goal with |- context [bounce (width fr) ?p ?pos ?vel] =>
    destruct (bounce_tests (width fr) p pos vel Rw) as [-> ->] end.
  match goal with |- context [bounce (height fr) ?p ?pos ?vel] =>
    destruct (bounce_tests (height fr) p pos vel Rh) as [-> ->] end.
  reflexivity.
Qed.

Lemma simulate_inBounds (ls : list Link) (frs : list (Frame num))
    (fr : Frame num) (ns : list (Node num)) (i : nat) (node : Node num) :
  ns !! i = Some node ->
  draggingNode fr <> Some i ->
  (width fr - (radius node + nconst 10) <? radius node + nconst 10) = false ->
  (height fr - (radius node + nconst 10) <? radius node + nconst 10) = false ->
  exists node',
    simulate ls (frs ++ [fr]) ns !! i = Some node' /\
    inBounds fr node' = true.
Proof.
  intros E D Rw Rh.
  destruct (simulate_identity ls frs ns i node E) as (n1 & E1 & _ & R1 & _).
  rewrite simulate_snoc, (physicsStep_lookup fr ls _ i n1 E1).
  eexists. split; [done |].
  apply stepNode_inBounds; [done | by rewrite R1 | by rewrite R1].
Qed.

End LawfulFacts.

(** * The step in real arithmetic *)

Section RealFacts.
Local Open Scope R_scope.

Lemma nlt_R_true (a b : R) : nlt a b = true <-> a < b.
Proof. cbn. destruct (Rlt_dec a b); split; (done || lra). Qed.

Lemma nlt_R_false (a b : R) : nlt a b = false <-> b <= a.
Proof. cbn. destruct (Rlt_dec a b); split; (done || lra). Qed.

Lemma REPULSION_R : REPULSION (num := R) = 1200.
Proof. reflexivity. Qed.

Lemma SPRING_LENGTH_R : SPRING_LENGTH (num := R) = 180.
Proof. reflexivity. Qed.

Lemma SPRING_STRENGTH_R : SPRING_STRENGTH (num := R) = 4 / 100.
Proof. reflexivity. Qed.

Lemma DAMPING_R : DAMPING (num := R) = 85 / 100.
Proof. reflexivity. Qed.

Lemma CENTER_PULL_R : CENTER_PULL (num := R) = 8 / 1000.
Proof. reflexivity. Qed.

Lemma tenth_R : ndec (num := R) 1 1 = 1 / 10.
Proof. reflexivity. Qed.

(** ** Distances *)

Lemma distOr1_R (dx dy : R) :
  distOr1 dx dy
  = if Req_dec_T (sqrt (dx * dx + dy * dy)) 0 then 1
    else sqrt (dx * dx + dy * dy).
Proof.
  unfold distOr1, nor. cbn.
  by destruct (Req_dec_T (sqrt (dx * dx + dy * dy)) 0).
Qed.

Lemma repulsionDist_R (dx dy : R) :
  repulsionDist dx dy
  = if Rlt_dec (distOr1 dx dy) 1 then 1 else distOr1 dx dy.
Proof.
  unfold repulsionDist. cbn.
  by destruct (Rlt_dec (distOr1 dx dy) 1).
Qed.

Lemma repulsionDist_ge_1 (dx dy : R) : 1 <= repulsionDist dx dy.
Proof.
  rewrite repulsionDist_R. destruct (Rlt_dec (distOr1 dx dy) 1); lra.
Qed.

(** The distance the repulsion divides by is never below the true one. *)
Lemma repulsionDist_ge_sqrt (dx dy : R) :
  sqrt (dx * dx + dy * dy) <= repulsionDist dx dy.
Proof.
  rewrite repulsionDist_R, distOr1_R.
  destruct (Req_dec_T (sqrt (dx * dx + dy * dy)) 0) as [E | E].
  - rewrite E. destruct (Rlt_dec 1 1); lra.
  - destruct (Rlt_dec (sqrt (dx * dx + dy * dy)) 1); lra.
Qed.

Lemma repulsionDist_square (dx dy : R) :
  dx * dx + dy * dy <= repulsionDist dx dy * repulsionDist dx dy.
Proof.
  assert (S : 0 <= dx * dx + dy * dy) by nra.
  pose proof (sqrt_pos (dx * dx + dy * dy)) as P.
  pose proof (repulsionDist_ge_sqrt dx dy) as G.
  rewrite <- (sqrt_sqrt (dx * dx + dy * dy)) at 1 by done.
  nra.
Qed.

Lemma repulsionDist_opp (dx dy : R) :
  repulsionDist (- dx) (- dy) = repulsionDist dx dy.
Proof.
  rewrite !repulsionDist_R, !distOr1_R.
  by replace (- dx * - dx + - dy * - dy) with (dx * dx + dy * dy) by ring.
Qed.

(** The repulsion term, with the numbers read as reals. *)
Lemma repulsionTerm_R (a b : Node R) :
  repulsionTerm a b
  = ((x a - x b) / repulsionDist (x a - x b) (y a - y b)
     * (1200 / (repulsionDist (x a - x b) (y a - y b)
                * repulsionDist (x a - x b) (y a - y b))),
     (y a - y b) / repulsionDist (x a - x b) (y a - y b)
     * (1200 / (repulsionDist (x a - x b) (y a - y b)
                * repulsionDist (x a - x b) (y a - y b)))).
Proof. reflexivity. Qed.

(** A link from a node to itself pulls nowhere. *)
Lemma springTerm_self (n : Node R) : springTerm n n = (0, 0).
Proof.
  unfold springTerm. cbn [nsub nmul ndiv R_Number].
  f_equal; unfold Rdiv; ring.
Qed.

(** ** The claims about the repulsion *)

(** C1 (amended): the repulsion terms two nodes get against each other from
    one and the same pair of positions are opposite, component by
    component.  Within a step the node at [i] reads a node with a later
    turn as the step found it, and the node at [j] reads a node with an
    earlier turn as the step leaves it, that is, already moved. *)
Theorem repulsion_antisymmetric :
  (forall a b : Node R,
      (repulsionTerm a b).1 = - (repulsionTerm b a).1 /\
      (repulsionTerm a b).2 = - (repulsionTerm b a).2) /\
  (forall (num : Type) (HN : Number num) (fr : Frame num) (ls : list Link)
          (ns : list (Node num)) (i j : nat),
      (i < j)%nat -> (j < length ns)%nat ->
      stepUpTo fr ls ns i !! j = ns !! j /\
      stepUpTo fr ls ns j !! i = physicsStep fr ls ns !! i).
Proof.
  split.
  - intros a b. rewrite !repulsionTerm_R. cbn [fst snd].
    replace (x b - x a) with (- (x a - x b)) by ring.
    replace (y b - y a) with (- (y a - y b)) by ring.
    rewrite repulsionDist_opp.
    split; unfold Rdiv; ring.
  - intros num HN fr ls ns i j Lt Le. split.
    + apply stepUpTo_later. lia.
    + apply stepUpTo_earlier; lia.
Qed.

(** C9: whatever the two positions (the same place included), the
    repulsion divides by a distance of at least 1, the force it computes is
    above 0 and at most the repulsion constant, and the term it adds has a
    magnitude of at most the repulsion constant (real arithmetic); on
    binary64 the distance it divides by is never 0, never NaN and never
    below 1, whatever the operands. *)
Theorem repulsion_bounded :
  (forall a b : Node R,
      1 <= repulsionDist (x a - x b) (y a - y b) /\
      0 < REPULSION / (repulsionDist (x a - x b) (y a - y b)
                       * repulsionDist (x a - x b) (y a - y b))
        <= REPULSION /\
      sqrt ((repulsionTerm a b).1 * (repulsionTerm a b).1
            + (repulsionTerm a b).2 * (repulsionTerm a b).2) <= REPULSION) /\
  (forall dx dy : float,
      nfalsy (repulsionDist dx dy) = false /\
      nlt (repulsionDist dx dy) (nconst 1) = false).
Proof.
  split; [| intros dx dy; apply repulsionDist_divisor].
  intros a b.
  rewrite repulsionTerm_R, REPULSION_R. cbn [fst snd].
  set (dx := x a - x b). set (dy := y a - y b).
  pose proof (repulsionDist_ge_1 dx dy) as G.
  pose proof (repulsionDist_square dx dy) as Q.
  set (d := repulsionDist dx dy) in *.
  assert (Pu : 0 < / d) by (apply Rinv_0_lt_compat; lra).
  assert (Lu : / d <= 1).
  { rewrite <- Rinv_1. apply Rinv_le_contravar; lra. }
  assert (Ed : d * / d = 1) by (apply Rinv_r; lra).
  set (u := / d) in *.
  assert (Ef : 1200 / (d * d) = 1200 * (u * u)).
  { unfold Rdiv, u. rewrite Rinv_mult. done. }
  split; [done |]. split.
  - rewrite Ef. nra.
  - rewrite Ef. unfold Rdiv. fold u. clearbody u d dx dy.
    assert (U2 : 0 < u * u <= 1) by nra.
    assert (Su : (dx * dx + dy * dy) * (u * u) <= 1).
    { replace 1 with ((d * u) * (d * u)) by (rewrite Ed; ring). nra. }
    assert (U4 : 0 <= u * u * (u * u) <= 1) by nra.
    replace (dx * u * (1200 * (u * u)) * (dx * u * (1200 * (u * u)))
             + dy * u * (1200 * (u * u)) * (dy * u * (1200 * (u * u))))
      with (1200 * 1200 * (((dx * dx + dy * dy) * (u * u)) * (u * u * (u * u))))
      by ring.
    assert (P : 0 <= (dx * dx + dy * dy) * (u * u)) by nra.
    set (p := (dx * dx + dy * dy) * (u * u)) in *.
    set (q := u * u * (u * u)) in *. clearbody p q.
    assert (p * q <= 1) by nra.
    apply Rle_trans with (sqrt (1200 * 1200)); [| rewrite sqrt_square; lra].
    apply sqrt_le_1_alt. nra.
Qed.

(** ** The velocity of the dragged node *)

(** What the dragged branch writes: in every frame in which the node at
    [i] is the dragged node, its velocity becomes a tenth of the vector from the node to the pointer
    position that [handleMouseMove] recorded (for every number instance;
    in real arithmetic: ten times the velocity leads from the node to the
    pointer); the rest of the array, the links, the canvas size and the
    velocity the node had play no part. *)
Theorem dragged_velocity_follows_pointer :
  (forall (num : Type) (HN : Number num) (v : View num) (px py : num)
          (i : nat) (node : Node num),
      draggingNode (frame v) = Some i ->
      nodes (graph v) !! i = Some node ->
      exists node',
        nodes (graph (animate (handleMouseMove v px py))) !! i = Some node' /\
        vx node' = nmul (nsub px (x node)) (ndec 1 1) /\
        vy node' = nmul (nsub py (y node)) (ndec 1 1)) /\
  (forall (num : Type) (HN : Number num) (fr : Frame num) (ls : list Link)
          (ns : list (Node num)) (i : nat) (node : Node num),
      draggingNode fr = Some i ->
      ns !! i = Some node ->
      exists node',
        physicsStep fr ls ns !! i = Some node' /\
        vx node' = nmul (nsub (mouseX fr) (x node)) (ndec 1 1) /\
        vy node' = nmul (nsub (mouseY fr) (y node)) (ndec 1 1)) /\
  (forall (v : View R) (px py : R) (i : nat) (node : Node R),
      draggingNode (frame v) = Some i ->
      nodes (graph v) !! i = Some node ->
      exists node',
        nodes (graph (animate (handleMouseMove v px py))) !! i = Some node' /\
        x node + 10 * vx node' = px /\
        y node + 10 * vy node' = py).
Proof.
  split; [| split].
  - intros num HN v px py i node D E. by apply dragged_velocity.
  - intros num HN fr ls ns i node D E. by apply dragged_velocity_alone.
  - intros v px py i node D E.
    destruct (dragged_velocity v px py i node D E) as (node' & E' & Hx & Hy).
    exists node'. split; [done |]. rewrite Hx, Hy, tenth_R. cbn. split; lra.
Qed.

(** ** The boundary tests *)

Lemma bounce_upper (dim p pos vel : R) :
  (bounce dim p pos vel).1 <= dim - p.
Proof.
  unfold bounce, ngt. cbn.
  destruct (Rlt_dec pos p); cbn; destruct (Rlt_dec _ _); cbn; lra.
Qed.

Lemma bounce_lower (dim p pos vel : R) :
  p <= dim - p -> p <= (bounce dim p pos vel).1.
Proof.
  intros Le. unfold bounce, ngt. cbn.
  destruct (Rlt_dec pos p); cbn; destruct (Rlt_dec _ _); cbn; lra.
Qed.

(** A node that is not dragged leaves its step below the upper bounds, and
    above the lower ones when the canvas has room for it. *)
Lemma stepNode_bounds (fr : Frame R) (ls : list Link) (ns : list (Node R))
    (i : nat) (node : Node R) :
  draggingNode fr <> Some i ->
  (x (stepNode fr ls ns i node) <= width fr - (radius node + 10) /\
   (2 * (radius node + 10) <= width fr ->
    radius node + 10 <= x (stepNode fr ls ns i node))) /\
  (y (stepNode fr ls ns i node) <= height fr - (radius node + 10) /\
   (2 * (radius node + 10) <= height fr ->
    radius node + 10 <= y (stepNode fr ls ns i node))).
Proof.
  intros D. unfold stepNode. rewrite bool_decide_eq_false_2 by done.
  cbn [x y].
  repeat split.
  - apply bounce_upper.
  - intros Le. apply bounce_lower. cbn. lra.
  - apply bounce_upper.
  - intros Le. apply bounce_lower. cbn. lra.
Qed.

(** C2 (amended): after one or more frames, a node that the last frame did
    not find dragged lies within [radius + 10, dimension - radius - 10] on
    every axis on which the canvas of that frame is at least
    2 * (radius + 10) wide (real arithmetic); on binary64, when
    [dimension - (radius + 10) < radius + 10] is false on both axes, none
    of the four boundary tests holds of the node any more. *)
Theorem position_within_bounds :
  (forall (ls : list Link) (frs : list (Frame R)) (fr : Frame R)
          (ns : list (Node R)) (i : nat) (node : Node R),
      ns !! i = Some node ->
      draggingNode fr <> Some i ->
      exists node',
        simulate ls (frs ++ [fr]) ns !! i = Some node' /\
        radius node' = radius node /\
        (2 * (radius node + 10) <= width fr ->
         radius node + 10 <= x node' <= width fr - radius node - 10) /\
        (2 * (radius node + 10) <= height fr ->
         radius node + 10 <= y node' <= height fr - radius node - 10)) /\
  (forall (ls : list Link) (frs : list (Frame float)) (fr : Frame float)
          (ns : list (Node float)) (i : nat) (node : Node float),
      ns !! i = Some node ->
      draggingNode fr <> Some i ->
      nlt (nsub (width fr) (nadd (radius node) (nconst 10)))
          (nadd (radius node) (nconst 10)) = false ->
      nlt (nsub (height fr) (nadd (radius node) (nconst 10)))
          (nadd (radius node) (nconst 10)) = false ->
      exists node',
        simulate ls (frs ++ [fr]) ns !! i = Some node' /\
        inBounds fr node' = true).
Proof.
  split.
  2: { intros ls frs fr ns i node E D Rw Rh.
       by apply (simulate_inBounds ls frs fr ns i node). }
  intros ls frs fr ns i node E D.
  destruct (simulate_identity ls frs ns i node E) as (n1 & E1 & _ & R1 & _).
  rewrite simulate_snoc, (physicsStep_lookup fr ls _ i n1 E1).
  eexists. split; [done |].
  destruct (stepNode_identity fr ls (stepUpTo fr ls (simulate ls frs ns) i)
              i n1) as (_ & R2 & _).
  destruct (stepNode_bounds fr ls (stepUpTo fr ls (simulate ls frs ns) i)
              i n1 D) as [[Ux Lx] [Uy Ly]].
  rewrite R1 in Ux, Lx, Uy, Ly.
  split; [congruence |]. split; intros Le.
  - specialize (Lx Le). lra.
  - specialize (Ly Le). lra.
Qed.

(** ** Click or drag *)

Lemma sqrt_below (s b : R) : 0 < b -> s < b * b -> sqrt s < b.
Proof.
  intros Pb Lt. destruct (Rle_or_lt 0 s) as [Ps | Ns].
  - rewrite <- (sqrt_square b) by lra. by apply sqrt_lt_1_alt.
  - rewrite sqrt_neg_0 by lra. done.
Qed.

Lemma sqrt_above (s b : R) : 0 <= b -> b * b < s -> b < sqrt s.
Proof.
  intros Pb Lt. rewrite <- (sqrt_square b) at 1 by lra.
  apply sqrt_lt_1_alt. nra.
Qed.

(** C5 (amended): on a graph whose marks are those [graphData] set, a press
    on the node [X] starts a drag of it; whatever frames, pointer moves and
    resizes follow, a release at the point of the press calls
    [onSelectNote] with the identifier of [X] if and only if [X] is not the
    current note's node, and a release at a point at least [radius + 10]
    away from the centre of [X] calls nothing (real arithmetic).  On
    binary64 the release calls [onSelectNote], with the identifier of [X],
    exactly when the test [dist < radius + 10] of [handleMouseUp] holds at
    the point of the release and [X] is not the current note's node. *)
Theorem click_or_drag :
  (forall (c : Note) (v : View R) (px py : R) (i : nat) (X : Node R)
          (mid : list (Event R)),
      flagged c (nodes (graph v)) ->
      hitNode (nodes (graph v)) px py = Some (i, X) ->
      Forall quiet mid ->
      (run c v (MouseDown px py :: mid ++ [MouseUp px py])).2
      = (if isCurrent X then [] else [node_id X]) /\
      forall qx qy : R,
        radius X + 10 <= pointerDist X qx qy ->
        (run c v (MouseDown px py :: mid ++ [MouseUp qx qy])).2 = []) /\
  (forall (c : Note) (v : View float) (px py : float) (i : nat)
          (X : Node float) (mid : list (Event float)) (qx qy : float),
      flagged c (nodes (graph v)) ->
      hitNode (nodes (graph v)) px py = Some (i, X) ->
      Forall quiet mid ->
      (run c v (MouseDown px py :: mid ++ [MouseUp qx qy])).2
      = if nlt (pointerDist X qx qy) (nadd (radius X) (nconst 10))
           && negb (isCurrent X)
        then [node_id X] else []).
Proof.
  split.
  2: { intros c v px py i X mid qx qy Cur Hit Q.
       by apply (press_then_release c v px py i X mid qx qy). }
  intros c v px py i X mid Cur Hit Q.
  destruct (handleMouseDown_hit v px py i X Hit) as (_ & _ & P).
  split.
  - rewrite (press_then_release c v px py i X mid px py Cur Hit Q).
    apply Is_true_true, nlt_R_true in P.
    assert (T : nlt (pointerDist X px py) (nadd (radius X) (nconst 10)) = true).
    { apply nlt_R_true. cbn in *. lra. }
    rewrite T. by destruct (isCurrent X).
  - intros qx qy Far.
    rewrite (press_then_release c v px py i X mid qx qy Cur Hit Q).
    assert (F : nlt (pointerDist X qx qy) (nadd (radius X) (nconst 10)) = false).
    { apply nlt_R_false. cbn in *. lra. }
    by rewrite F.
Qed.

(** ** Evaluating a step on nodes that lie on a horizontal line *)

Lemma repulsionDist_flat (dx : R) :
  1 <= Rabs dx -> repulsionDist dx 0 = Rabs dx.
Proof.
  intros Le. rewrite repulsionDist_R, distOr1_R.
  replace (dx * dx + 0 * 0) with (Rsqr dx) by (unfold Rsqr; ring).
  rewrite sqrt_Rsqr_abs.
  destruct (Req_dec_T (Rabs dx) 0); [lra |].
  destruct (Rlt_dec (Rabs dx) 1); [lra | done].
Qed.

Lemma bounce_inside (dim p pos vel : R) :
  p <= pos <= dim - p -> bounce dim p pos vel = (pos, vel).
Proof.
  intros [Lo Hi]. unfold bounce, ngt. cbn.
  destruct (Rlt_dec pos p); [lra |]. cbn.
  destruct (Rlt_dec (dim - p) pos); [lra | done].
Qed.

End RealFacts.

(** For two nodes the repulsion loop of each adds the one term against the
    other. *)
Lemma repulsion_first {num : Type} `{Number num} (a b node : Node num) :
  repulsion [a; b] 0 node
  = (nadd (nconst 0) (repulsionTerm node b).1,
     nadd (nconst 0) (repulsionTerm node b).2).
Proof. reflexivity. Qed.

Lemma repulsion_second {num : Type} `{Number num} (a b node : Node num) :
  repulsion [a; b] 1 node
  = (nadd (nconst 0) (repulsionTerm node a).1,
     nadd (nconst 0) (repulsionTerm node a).2).
Proof. reflexivity. Qed.

(** * The claims on sample inputs *)

Section Samples.
Local Open Scope R_scope.

(** Two nodes 100 apart on the middle line of a canvas, at rest. *)
Lemma first_node_moves :
  stepUpTo (sampleFrame 800 400 None 0 0) []
    [currentNode (num := R) "A" 100 200; sampleNode "B" 200 200 8] 1
  = [ {| note := sampleNote "A" "" []; x := 101.938; y := 200;
         vx := 1.938; vy := 0; radius := 20; isCurrent := true;
         color := "#ffffff" |};
      sampleNode "B" 200 200 8 ].
Proof.
  unfold stepUpTo. cbn [seq foldl]. unfold stepAt. cbn [lookup list_lookup].
  cbn [insert list_insert]. f_equal.
  unfold stepNode. rewrite bool_decide_eq_false_2 by done.
  cbn [attraction foldl]. rewrite repulsion_first, repulsionTerm_R.
  cbn [fst snd x y vx vy radius sampleNode currentNode sampleFrame width
       height note isCurrent color].
  rewrite DAMPING_R, CENTER_PULL_R. cbn [nadd nsub nmul ndiv nconst R_Number].
  assert (D : repulsionDist (100 - 200) (200 - 200) = 100).
  { replace (200 - 200) with 0 by lra. rewrite repulsionDist_flat.
    - rewrite Rabs_left; lra.
    - rewrite Rabs_left; lra. }
  rewrite D. rewrite !bounce_inside by lra. cbn [fst snd].
  f_equal; lra.
Qed.

(** C1, counterexample: two nodes at rest, 100 apart, no link, nobody
    dragged.  The first node computes a push of 0.12 away from the second
    and is moved (the centre pulls it to the right); the second node then
    computes, against the place the first has been moved to, a push of
    more than 0.12.  In real arithmetic, and on binary64. *)
Lemma forces_differ_within_step :
  ((repulsionInStep (sampleFrame 800 400 None 0 0) []
      [currentNode (num := R) "A" 100 200; sampleNode "B" 200 200 8] 0).1
   = - 0.12 /\
   0.12 < (repulsionInStep (sampleFrame 800 400 None 0 0) []
             [currentNode (num := R) "A" 100 200; sampleNode "B" 200 200 8]
             1).1) /\
  nlt (nsub (nconst 0)
         (repulsionInStep (sampleFrame 800 400 None 0 0) []
            [currentNode (num := float) "A" 100 200; sampleNode "B" 200 200 8]
            0).1)
      (repulsionInStep (sampleFrame 800 400 None 0 0) []
         [currentNode (num := float) "A" 100 200; sampleNode "B" 200 200 8]
         1).1
  = true.
Proof.
  split; [split |].
  - unfold repulsionInStep, stepUpTo. cbn [seq foldl lookup list_lookup].
    rewrite repulsion_first, repulsionTerm_R.
    cbn [fst snd x y sampleNode currentNode]. cbn [nadd nconst R_Number].
    replace (200 - 200) with 0 by lra. rewrite repulsionDist_flat.
    + rewrite Rabs_left by lra.
      replace (- (100 - 200)) with 100 by lra. lra.
    + rewrite Rabs_left; lra.
  - unfold repulsionInStep. rewrite first_node_moves.
    cbn [lookup list_lookup]. rewrite repulsion_second, repulsionTerm_R.
    cbn [fst snd x y sampleNode currentNode]. cbn [nadd nconst R_Number].
    replace (200 - 200) with 0 by lra. rewrite repulsionDist_flat.
    + rewrite Rabs_right by lra.
      replace (200 - 101.938) with 98.062 by lra. lra.
    + rewrite Rabs_right; lra.
  - vm_compute. reflexivity.
Qed.

Lemma repulsion_antisymmetric_witness :
  (repulsionTerm (currentNode (num := R) "A" 100 200)
                 (sampleNode "B" 200 200 8)).1
  = - (repulsionTerm (sampleNode (num := R) "B" 200 200 8)
                     (currentNode "A" 100 200)).1 /\
  stepUpTo (sampleFrame 800 400 None 0 0) []
    [currentNode (num := float) "A" 100 200; sampleNode "B" 200 200 8] 1
  !! 0%nat
  = physicsStep (sampleFrame 800 400 None 0 0) []
      [currentNode (num := float) "A" 100 200; sampleNode "B" 200 200 8]
    !! 0%nat.
Proof.
  split.
  - exact (proj1 (proj1 repulsion_antisymmetric
                    (currentNode "A" 100 200) (sampleNode "B" 200 200 8))).
  - apply (proj2 repulsion_antisymmetric float _
             (sampleFrame 800 400 None 0 0) []
             [currentNode "A" 100 200; sampleNode "B" 200 200 8] 0%nat 1%nat).
    + lia.
    + cbn. lia.
Defined.

(** C2, counterexample: on a canvas 40 wide the node of the current note (radius
    20) ends its
    step left of [radius + 10] (in real arithmetic and on binary64); and a
    dragged node that lies left of the canvas stays there. *)
Lemma nodes_out_of_bounds :
  (exists node',
      physicsStep (sampleFrame 40 600 None 0 0) []
        [currentNode (num := R) "A" 20 300] !! 0%nat = Some node' /\
      x node' < radius node' + 10) /\
  (exists node',
      physicsStep (sampleFrame 40 600 None 0 0) []
        [currentNode (num := float) "A" 20 300] !! 0%nat = Some node' /\
      nlt (x node') (nadd (radius node') (nconst 10)) = true) /\
  (exists node',
      physicsStep (sampleFrame 800 600 (Some 0%nat) 400 300) []
        [currentNode (num := R) "A" (-10) 300] !! 0%nat = Some node' /\
      x node' < radius node' + 10).
Proof.
  split; [| split].
  - erewrite physicsStep_lookup by reflexivity.
    eexists. split; [reflexivity |].
    match goal with |- x (stepNode ?fr ?ls ?ns ?i ?n) < _ =>
      destruct (stepNode_bounds fr ls ns i n) as [[Ux _] _]; [done |];
      destruct (stepNode_identity fr ls ns i n) as (_ & -> & _)
    end.
    cbn in Ux |- *. lra.
  - eexists. split; [vm_compute; reflexivity | vm_compute; reflexivity].
  - erewrite physicsStep_dragged by reflexivity.
    eexists. split; [reflexivity |]. cbn. lra.
Qed.

Lemma position_within_bounds_witness :
  (exists node',
      simulate []
        ([sampleFrame 800 400 None 0 0] ++ [sampleFrame 800 400 None 0 0])
        [currentNode (num := R) "A" 100 200; sampleNode "B" 200 200 8]
      !! 0%nat = Some node' /\
      radius node' = 20 /\
      (2 * (20 + 10) <= 800 -> 20 + 10 <= x node' <= 800 - 20 - 10) /\
      (2 * (20 + 10) <= 400 -> 20 + 10 <= y node' <= 400 - 20 - 10)) /\
  (exists node',
      simulate []
        ([sampleFrame 800 400 None 0 0] ++ [sampleFrame 800 400 None 0 0])
        [currentNode (num := float) "A" 100 200; sampleNode "B" 200 200 8]
      !! 0%nat = Some node' /\
      inBounds (sampleFrame 800 400 None 0 0) node' = true).
Proof.
  assert (N : draggingNode (sampleFrame (num := R) 800 400 None 0 0)
              <> Some 0%nat) by discriminate.
  assert (N' : draggingNode (sampleFrame (num := float) 800 400 None 0 0)
               <> Some 0%nat) by discriminate.
  split.
  - exact (proj1 position_within_bounds []
             [sampleFrame 800 400 None 0 0] (sampleFrame 800 400 None 0 0)
             [currentNode "A" 100 200; sampleNode "B" 200 200 8] 0%nat
             (currentNode "A" 100 200) eq_refl N).
  - apply (proj2 position_within_bounds []
             [sampleFrame 800 400 None 0 0] (sampleFrame 800 400 None 0 0)
             [currentNode "A" 100 200; sampleNode "B" 200 200 8] 0%nat
             (currentNode "A" 100 200) eq_refl N').
    + vm_compute. reflexivity.
    + vm_compute. reflexivity.
Defined.

(** A press 12 to the left of the centre of the node of "B" hits it, and
    not the node of "A", which is far away. *)
Lemma sample_hit :
  hitNode (sampleNodes (num := R)) 88 100
  = Some (1%nat, sampleNode "B" 100 100 8).
Proof.
  unfold hitNode. apply list_find_Some. split; [reflexivity |]. split.
  - apply Is_true_true, nlt_R_true. unfold pointerDist. cbn.
    apply sqrt_below; lra.
  - intros j n E Lt. assert (j = 0%nat) as -> by lia.
    injection E as <-. intros P.
    apply Is_true_true, nlt_R_true in P. unfold pointerDist in P. cbn in P.
    assert (25 < sqrt ((400 - 88) * (400 - 88) + (300 - 100) * (300 - 100)))
      by (apply sqrt_above; lra).
    lra.
Qed.

(** C5, counterexample: the press is 12 to the left of the centre of the
    node of "B" (radius 8), the release 17 to its right: the pointer has
    moved by 29, more than radius + 10, and yet [onSelectNote] is called.
    In real arithmetic and on binary64. *)
Lemma drag_across_node_navigates :
  (8 + 10 < sqrt ((117 - 88) * (117 - 88) + (100 - 100) * (100 - 100)) /\
   (run (sampleNote "A" "" [])
      (sampleView (sampleNodes (num := R)) (sampleFrame 800 600 None 0 0))
      [MouseDown 88 100; MouseMove 117 100; MouseUp 117 100]).2 = ["B"]) /\
  (nlt (num := float) (nadd (nconst 8) (nconst 10))
       (nsqrt (nadd (nmul (nsub (nconst 117) (nconst 88))
                          (nsub (nconst 117) (nconst 88)))
                    (nmul (nsub (nconst 100) (nconst 100))
                          (nsub (nconst 100) (nconst 100)))))
   = true /\
   (run (sampleNote "A" "" [])
      (sampleView (sampleNodes (num := float)) (sampleFrame 800 600 None 0 0))
      [MouseDown (nconst 88) (nconst 100); MouseMove (nconst 117) (nconst 100);
       MouseUp (nconst 117) (nconst 100)]).2 = ["B"]).
Proof.
  split; split.
  - apply sqrt_above; lra.
  - destruct (handleMouseDown_hit
                (sampleView (sampleNodes (num := R))
                   (sampleFrame 800 600 None 0 0)) 88 100 1
                (sampleNode "B" 100 100 8) sample_hit) as (D & E & _).
    change (run ?c ?v [MouseDown ?a ?b; ?e; ?u])
      with (run c v (MouseDown a b :: [e] ++ [u])).
    rewrite run_press.
    rewrite (release_after_drag (sampleNote "A" "" []) [MouseMove 117 100]
               _ 1 (sampleNode "B" 100 100 8) 117 100 D E).
    + assert (T : nlt (pointerDist (sampleNode (num := R) "B" 100 100 8) 117 100)
                      (nadd (radius (sampleNode (num := R) "B" 100 100 8))
                            (nconst 10)) = true).
      { apply nlt_R_true. unfold pointerDist. cbn. apply sqrt_below; lra. }
      rewrite T. reflexivity.
    + repeat constructor.
  - vm_compute. reflexivity.
  - vm_compute. reflexivity.
Qed.

Lemma click_or_drag_witness :
  (run (sampleNote "A" "" [])
     (sampleView (sampleNodes (num := R)) (sampleFrame 800 600 None 0 0))
     (MouseDown 88 100 :: [AnimationFrame] ++ [MouseUp 88 100])).2
  = (if isCurrent (sampleNode (num := R) "B" 100 100 8) then []
     else [node_id (sampleNode (num := R) "B" 100 100 8)]) /\
  forall qx qy : R,
    radius (sampleNode (num := R) "B" 100 100 8) + 10
    <= pointerDist (sampleNode (num := R) "B" 100 100 8) qx qy ->
    (run (sampleNote "A" "" [])
       (sampleView (sampleNodes (num := R)) (sampleFrame 800 600 None 0 0))
       (MouseDown 88 100 :: [AnimationFrame] ++ [MouseUp qx qy])).2 = [].
Proof.
  apply (proj1 click_or_drag (sampleNote "A" "" [])
           (sampleView sampleNodes (sampleFrame 800 600 None 0 0))
           88 100 1%nat (sampleNode "B" 100 100 8) [AnimationFrame]).
  - repeat constructor.
  - exact sample_hit.
  - repeat constructor.
Defined.

End Samples.

(** The dragged node on binary64: the node of "B" at (100, 100), dragged
    with the pointer at (300, 100), through two frames. *)
Lemma dragged_node_keeps_position_witness :
  exists node',
    nodes (graph (run (sampleNote "A" "" [])
                    (sampleView (sampleNodes (num := float))
                       (sampleFrame 800 600 (Some 1) 300 100))
                    [AnimationFrame; AnimationFrame]).1) !! 1
    = Some node' /\
    x node' = x (sampleNode (num := float) "B" 100 100 8) /\
    y node' = y (sampleNode (num := float) "B" 100 100 8).
Proof.
  apply (proj2 (dragged_node_keeps_position (sampleNote "A" "" [])
                  (sampleView (sampleNodes (num := float))
                     (sampleFrame 800 600 (Some 1) 300 100))
                  1 (sampleNode "B" 100 100 8) eq_refl eq_refl)).
  intros [| [| [| k]]]; reflexivity.
Defined.

Lemma dragged_velocity_follows_pointer_witness :
  exists node',
    nodes (graph (animate (handleMouseMove
                             (sampleView (sampleNodes (num := float))
                                (sampleFrame 800 600 (Some 1) 0 0))
                             (nconst 300) (nconst 100)))) !! 1
    = Some node' /\
    vx node' = nmul (nsub (nconst 300) (nconst 100)) (ndec 1 1) /\
    vy node' = nmul (nsub (nconst 100) (nconst 100)) (ndec 1 1).
Proof.
  exact (proj1 dragged_velocity_follows_pointer float _
           (sampleView (sampleNodes (num := float))
              (sampleFrame 800 600 (Some 1) 0 0))
           (nconst 300) (nconst 100) 1 (sampleNode "B" 100 100 8)
           eq_refl eq_refl).
Defined.

(** * The program on binary64 *)

(** Two nodes at the same place: the distance is taken as 1, and the term
    is zero (not NaN). *)
Example repulsion_same_place :
  repulsionTerm (sampleNode (num := float) "A" 100 200 8)
                (sampleNode "B" 100 200 8)
  = (PrimFloat.zero, PrimFloat.zero).
Proof. vm_compute. reflexivity. Qed.

(** Two notes without links: two nodes, no link; after 500 frames on a
    canvas of 800 by 600 both nodes are inside the canvas, at different
    places. *)
Example two_notes_500_frames :
  length (nodes (graphData (sampleNote "A" "" []) [sampleNote "B" "" []]
                   spreadRandom)) = 2 /\
  links (graphData (sampleNote "A" "" []) [sampleNote "B" "" []] spreadRandom)
  = [] /\
  match
    simulate [] (replicate 500 (sampleFrame 800 600 None 0 0))
      (nodes (graphData (sampleNote "A" "" []) [sampleNote "B" "" []]
                spreadRandom))
  with
  | [a; b] =>
      inBounds (sampleFrame 800 600 None 0 0) a
      && inBounds (sampleFrame 800 600 None 0 0) b
      && negb (PrimFloat.eqb (x a) (x b) && PrimFloat.eqb (y a) (y b))
  | _ => false
  end = true.
Proof. repeat split; vm_compute; reflexivity. Qed.

(** The three notes of the cycle: three nodes, three links. *)
Example cycle_on_samples :
  (fun l => (source l, target l)) <$>
    links (graphData (sampleNote "A" "" ["B"])
             [sampleNote "B" "" ["C"]; sampleNote "C" "" ["A"]] sampleRandom)
  = [("B", "C"); ("C", "A"); ("A", "B")].
Proof. vm_compute. reflexivity. Qed.

(** * More about the graph that is built *)

Lemma foldl_invariant_in {A B : Type} (P : A -> Prop) (f : A -> B -> A)
    (l : list B) (a : A) :
  P a -> (forall a x, x ∈ l -> P a -> P (f a x)) -> P (foldl f a l).
Proof.
  revert a. induction l as [| y l IH]; intros a Ha Hf; simpl; [done |].
  apply IH.
  - apply Hf; [apply list_elem_of_here | done].
  - intros a' x I. apply Hf. by apply list_elem_of_further.
Qed.

Section GraphMore.
Context {num : Type} `{Number num}.
Local Open Scope list_scope.

Lemma addSmartLink_sound (ns : list (Node num)) (src : Node num)
    (sls : list SmartLink) (ls : list Link) (sl : SmartLink) :
  src ∈ ns -> metadata (note src) ≫= smartLinks = Some sls -> sl ∈ sls ->
  soundLinks ns ls ->
  soundLinks ns (addSmartLink (makeNodeMap ns) src ls sl).
Proof.
  intros Isrc E Isl S. unfold addSmartLink.
  destruct (bool_decide (is_Some (makeNodeMap ns !! targetId sl))) eqn:B;
    [| done].
  destruct (linkExists ls (node_id src) (targetId sl)); [done |].
  apply bool_decide_eq_true_1, makeNodeMap_has in B.
  intros l [I | ->%list_elem_of_singleton]%elem_of_app; [by apply S |].
  split; [done |]. exists src. split; [done |].
  exists sls, sl. by repeat split.
Qed.

Lemma addNodeLinks_sound (ns : list (Node num)) (ls : list Link)
    (src : Node num) :
  src ∈ ns -> soundLinks ns ls ->
  soundLinks ns (addNodeLinks (makeNodeMap ns) ls src).
Proof.
  intros Isrc S. unfold addNodeLinks.
  destruct (metadata (note src) ≫= smartLinks) as [sls |] eqn:E; [| done].
  apply (foldl_invariant_in (soundLinks ns)); [done |].
  intros a sl Isl Sa. by apply (addSmartLink_sound ns src sls).
Qed.

Lemma makeLinks_sound (ns : list (Node num)) : soundLinks ns (makeLinks ns).
Proof.
  unfold makeLinks. apply (foldl_invariant_in (soundLinks ns)).
  - intros l I. by apply elem_of_nil in I.
  - intros a src Isrc Sa. by apply addNodeLinks_sound.
Qed.

Lemma countJoins_sym (s t : string) (ls : list Link) :
  countJoins s t ls = countJoins t s ls.
Proof. apply countJoins_ext. intros l. apply linkJoins_sym. Qed.

Lemma countJoins_pos (s t : string) (ls : list Link) :
  countJoins s t ls <> 0 <-> exists l, l ∈ ls /\ linkJoins s t l = true.
Proof.
  unfold countJoins. split.
  - destruct (filter _ ls) as [| l k] eqn:F; [done |]. intros _.
    assert (I : l ∈ filter (fun l => linkJoins s t l = true) ls)
      by (rewrite F; apply list_elem_of_here).
    apply list_elem_of_filter in I as [J I]. eauto.
  - intros (l & I & J).
    assert (I' : l ∈ filter (fun l => linkJoins s t l = true) ls)
      by (by apply list_elem_of_filter).
    destruct (filter _ ls); [by apply elem_of_nil in I' | done].
Qed.

(** The notes of the nodes, in the order of the nodes: the pool with every
    entry that carries the current note's identifier replaced by the
    current note, and the current note at the end when there was none. *)
Theorem nodes_follow_pool (c : Note) (pool : list Note) (rnd : nat -> num) :
  note <$> nodes (graphData c pool rnd)
  = ((fun n => if decide (id n = id c) then c else n) <$> pool)
    ++ (if decide (id c ∈ id <$> pool) then [] else [c]) /\
  length (nodes (graphData c pool rnd))
  = (length pool + if decide (id c ∈ id <$> pool) then 0 else 1)%nat.
Proof.
  assert (E : note <$> nodes (graphData c pool rnd)
              = ((fun n => if decide (id n = id c) then c else n) <$> pool)
                ++ (if decide (id c ∈ id <$> pool) then [] else [c])).
  { unfold graphData. cbn [nodes]. rewrite makeNodes_notes.
    unfold mergedNotes. cbv zeta. rewrite find_replaced.
    assert (F : (fun n => if String.eqb (id n) (id c) then c else n) <$> pool
                = (fun n => if decide (id n = id c) then c else n) <$> pool).
    { apply list_fmap_ext. intros i n _. rewrite eqb_decide.
      destruct (decide (id n = id c)).
      - by rewrite bool_decide_eq_true_2.
      - by rewrite bool_decide_eq_false_2. }
    rewrite F. destruct (decide (id c ∈ id <$> pool)); [| done].
    by rewrite app_nil_r. }
  split; [done |].
  rewrite <- (length_fmap note), E, length_app, length_fmap.
  by destruct (decide (id c ∈ id <$> pool)).
Qed.

(** Building from the merged pool is building from the pool. *)
Theorem mergedNotes_idempotent (c : Note) (pool : list Note) :
  mergedNotes c (mergedNotes c pool) = mergedNotes c pool.
Proof.
  assert (In : id c ∈ id <$> mergedNotes c pool).
  { rewrite mergedNotes_ids.
    destruct (decide (id c ∈ id <$> pool)) as [I | I].
    - by rewrite app_nil_r.
    - apply elem_of_app. right. apply list_elem_of_here. }
  unfold mergedNotes at 1. cbv zeta. rewrite find_replaced.
  rewrite decide_True by done.
  rewrite <- (list_fmap_id (mergedNotes c pool)) at 2.
  apply list_fmap_ext. intros i n E.
  destruct (String.eqb_spec (id n) (id c)) as [Eq | Ne]; [| done].
  symmetry. apply (mergedNotes_current c pool); [| done].
  by apply list_elem_of_lookup_2 in E.
Qed.

(** Every link joins two nodes and is declared, with its reason, by the
    note of its source. *)
Theorem links_are_declared (c : Note) (pool : list Note) (rnd : nat -> num)
    (l : Link) :
  l ∈ links (graphData c pool rnd) ->
  source l ∈ id <$> mergedNotes c pool /\
  target l ∈ id <$> mergedNotes c pool /\
  exists n, n ∈ mergedNotes c pool /\ declaredBy n l.
Proof.
  intros I. unfold graphData in I. cbn [links] in I.
  destruct (makeLinks_sound _ l I) as (It & n & In & D).
  rewrite makeNodes_ids in It.
  assert (In' : note n ∈ mergedNotes c pool).
  { rewrite <- (makeNodes_notes c rnd (mergedNotes c pool)).
    apply list_elem_of_fmap. eauto. }
  split; [| split; [done | eauto]].
  destruct D as (sls & sl & _ & _ & -> & _).
  apply list_elem_of_fmap. eauto.
Qed.

(** There is a link between two identifiers exactly when one of the two
    notes declares a smart link to the other and both are nodes; a smart
    link to an identifier that is no node gives nothing. *)
Theorem link_iff_declared (c : Note) (pool : list Note) (rnd : nat -> num)
    (k t : string) :
  countJoins k t (links (graphData c pool rnd)) = 1 <->
  (declares (mergedNotes c pool) k t /\ t ∈ id <$> mergedNotes c pool) \/
  (declares (mergedNotes c pool) t k /\ k ∈ id <$> mergedNotes c pool).
Proof.
  split.
  - intros C.
    assert (P : countJoins k t (links (graphData c pool rnd)) <> 0) by lia.
    apply countJoins_pos in P as (l & I & J).
    destruct (links_are_declared c pool rnd l I) as (Is & It & n & In & D).
    destruct D as (sls & sl & E & Isl & Hs & Ht & _).
    assert (Dl : declares (mergedNotes c pool) (source l) (target l)).
    { exists n. split; [done |]. split; [done |].
      unfold linksTo. rewrite E, Ht. apply list_elem_of_fmap. eauto. }
    apply linkJoins_ends in J as [[<- <-] | [<- <-]]; [by left | by right].
  - intros [[D I] | [D I]].
    + by apply graphData_exactly_one.
    + rewrite countJoins_sym. by apply graphData_exactly_one.
Qed.

(** A note listed under "Referenced By" for the current note is joined to
    it in the graph built from the same pool. *)
Theorem backlinks_are_edges (c : Note) (pool : list Note) (rnd : nat -> num)
    (n : Note) :
  n ∈ backlinks (id c) pool -> id n <> id c ->
  countJoins (id n) (id c) (links (graphData c pool rnd)) = 1.
Proof.
  intros I Ne. unfold backlinks in I.
  apply list_elem_of_In, filter_In in I as [I B].
  apply list_elem_of_In in I.
  apply graphData_exactly_one.
  - exists n. split; [| split; [done |]].
    + unfold mergedNotes. cbv zeta. rewrite find_replaced.
      assert (I' : n ∈ (fun n => if String.eqb (id n) (id c) then c else n)
                        <$> pool).
      { apply list_elem_of_fmap. exists n. split; [| done].
        by rewrite (proj2 (String.eqb_neq (id n) (id c))). }
      destruct (decide (id c ∈ id <$> pool)); [done |].
      apply elem_of_app. by left.
    + unfold linksTo.
      destruct (metadata n ≫= smartLinks) as [sls |]; [| done].
      apply existsb_exists in B as (sl & Isl & Eq).
      apply String.eqb_eq in Eq. rewrite <- Eq.
      apply list_elem_of_fmap. exists sl. split; [done |].
      by apply list_elem_of_In.
  - rewrite mergedNotes_ids.
    destruct (decide (id c ∈ id <$> pool)) as [Ic | Ic].
    + by rewrite app_nil_r.
    + apply elem_of_app. right. apply list_elem_of_here.
Qed.

End GraphMore.

(** * More about events *)

Section EventsMore.
Context {num : Type} {HN : Number num}.
Local Open Scope list_scope.

Lemma identities_ids (ns ns' : list (Node num)) :
  identities ns' = identities ns -> node_id <$> ns' = node_id <$> ns.
Proof.
  intros E. apply (f_equal (fmap (fun t => id t.1.1.1))) in E.
  unfold identities in E. by rewrite <- !list_fmap_compose in E.
Qed.

Lemma identities_flagged (c : Note) (ns ns' : list (Node num)) :
  identities ns' = identities ns -> flagged c ns -> flagged c ns'.
Proof.
  unfold flagged, identities. rewrite !Forall_lookup. intros E F i n' E'.
  assert (L : (fun n => (note n, radius n, isCurrent n, color n)) <$> ns' !! i
              = (fun n => (note n, radius n, isCurrent n, color n)) <$> ns !! i)
    by (by rewrite <- !list_lookup_fmap, E).
  rewrite E' in L. destruct (ns !! i) as [n |] eqn:En; [| done].
  injection L as Hn _ Hc _. unfold node_id. rewrite Hn, Hc. by apply (F i).
Qed.

Lemma physicsStep_identities (fr : Frame num) (ls : list Link)
    (ns : list (Node num)) :
  identities (physicsStep fr ls ns) = identities ns.
Proof.
  unfold identities. apply list_eq. intros i. rewrite !list_lookup_fmap.
  destruct (ns !! i) as [node |] eqn:E.
  - rewrite (physicsStep_lookup fr ls ns i node E). cbn.
    by destruct (stepNode_identity fr ls (stepUpTo fr ls ns i) i node)
      as (-> & -> & -> & ->).
  - rewrite (lookup_ge_None_2 (physicsStep fr ls ns) i); [done |].
    rewrite physicsStep_length. by apply lookup_ge_None_1.
Qed.

Lemma handle_keeps_graph (c : Note) (v : View num) (e : Event num) :
  identities (nodes (graph (handle c v e).1)) = identities (nodes (graph v)) /\
  links (graph (handle c v e).1) = links (graph v).
Proof.
  destruct e as [px py | px py | px py | | w h |]; cbn [handle fst].
  - unfold handleMouseDown. by destruct (hitNode _ _ _) as [[j ?] |].
  - done.
  - unfold handleMouseUp. destruct (draggingNode (frame v)); [| done].
    destruct (nodes (graph v) !! n); [| done].
    destruct (nlt _ _); [destruct (negb _) |]; done.
  - done.
  - done.
  - cbn [animate graph nodes links]. split; [| done].
    apply physicsStep_identities.
Qed.

Lemma run_keeps_graph (c : Note) (es : list (Event num)) (v : View num) :
  identities (nodes (graph (run c v es).1)) = identities (nodes (graph v)) /\
  links (graph (run c v es).1) = links (graph v).
Proof.
  revert v. induction es as [| e es IH]; intros v; [done |].
  cbn [run fst]. destruct (IH (handle c v e).1) as [-> ->].
  apply handle_keeps_graph.
Qed.

Lemma findNode_is_Some (ns : list (Node num)) (k : string) :
  is_Some (findNode ns k) <-> k ∈ node_id <$> ns.
Proof.
  unfold findNode. split.
  - intros [[i n] E]. apply list_find_Some in E as (E & <- & _).
    apply list_elem_of_fmap. exists n. split; [done |].
    by apply list_elem_of_lookup_2 in E.
  - intros (n & -> & I)%list_elem_of_fmap.
    by apply (list_find_elem_of _ ns n).
Qed.

(** What one event can call [onSelectNote] with. *)
Lemma handle_call (c : Note) (v : View num) (e : Event num) (k : string) :
  (handle c v e).2 = Some k ->
  isMouseUp e /\ k <> id c /\ k ∈ node_id <$> nodes (graph v) /\
  is_Some (draggingNode (frame v)).
Proof.
  destruct e as [px py | px py | px py | | w h |]; cbn [handle snd]; try done.
  unfold handleMouseUp.
  destruct (draggingNode (frame v)) as [i |]; [| done].
  destruct (nodes (graph v) !! i) as [node |] eqn:E; [| done].
  destruct (nlt _ _); [| done].
  destruct (String.eqb_spec (node_id node) (id c)) as [Eq | Ne]; [done |].
  cbn. intros [= <-]. repeat split; [done | | done].
  apply list_elem_of_fmap. exists node. split; [done |].
  by apply list_elem_of_lookup_2 in E.
Qed.

Lemma run_calls (c : Note) (es : list (Event num)) (v : View num) :
  Forall (fun k => k <> id c /\ k ∈ node_id <$> nodes (graph v))
         (run c v es).2.
Proof.
  revert v. induction es as [| e es IH]; intros v; [apply Forall_nil_2 |].
  cbn [run snd]. pose proof (IH (handle c v e).1) as F.
  destruct (handle_keeps_graph c v e) as [Ei _].
  rewrite (identities_ids _ _ Ei) in F.
  destruct ((handle c v e).2) as [k |] eqn:Hk; [| done].
  destruct (handle_call c v e k Hk) as (_ & Ne & I & _).
  by apply Forall_cons.
Qed.

(** [onSelectNote] is only ever called with the identifier of a node of the
    graph that is not the current note's, and at most once for each
    mouse-up. *)
Theorem navigation_targets (c : Note) (es : list (Event num)) (v : View num) :
  Forall (fun k => k <> id c /\ k ∈ node_id <$> nodes (graph v))
         (run c v es).2 /\
  length (run c v es).2 <= length (filter isMouseUp es).
Proof.
  split; [apply run_calls |].
  revert v. induction es as [| e es IH]; intros v; [done |].
  cbn [run snd]. pose proof (IH (handle c v e).1) as L.
  destruct ((handle c v e).2) as [k |] eqn:Hk.
  - destruct (handle_call c v e k Hk) as (Up & _).
    rewrite filter_cons, decide_True by done. cbn. lia.
  - rewrite filter_cons. destruct (decide (isMouseUp e)); cbn; lia.
Qed.

(** Without a dragged node a release calls nothing: after the pointer has
    left the canvas, and after a press that hit no node. *)
Theorem no_drag_no_navigation :
  (forall (c : Note) (v : View num) (mid : list (Event num)) (qx qy : num),
      draggingNode (frame v) = None -> Forall quiet mid ->
      (run c v (mid ++ [MouseUp qx qy])).2 = []) /\
  (forall (c : Note) (v : View num) (mid : list (Event num)) (qx qy : num),
      Forall quiet mid ->
      (run c v (MouseLeave :: mid ++ [MouseUp qx qy])).2 = []) /\
  (forall (c : Note) (v : View num) (mid : list (Event num))
          (px py qx qy : num),
      draggingNode (frame v) = None ->
      hitNode (nodes (graph v)) px py = None ->
      Forall quiet mid ->
      (run c v (MouseDown px py :: mid ++ [MouseUp qx qy])).2 = []).
Proof.
  assert (G : forall (c : Note) (mid : list (Event num)) (v : View num)
                     (qx qy : num),
             draggingNode (frame v) = None -> Forall quiet mid ->
             (run c v (mid ++ [MouseUp qx qy])).2 = []).
  { intros c mid v qx qy D Q. revert v D.
    induction Q as [| e mid Qe _ IH]; intros v D.
    - cbn [app run handle snd fst]. unfold handleMouseUp. by rewrite D.
    - cbn [app run snd].
      destruct (handle_quiet c v e Qe) as [D' ->].
      apply IH. congruence. }
  split; [| split].
  - intros. by apply G.
  - intros c v mid qx qy Q. cbn [run handle snd fst]. by apply G.
  - intros c v mid px py qx qy D Hit Q. cbn [run handle snd fst].
    apply G; [| done]. unfold handleMouseDown. by rewrite Hit.
Qed.

End EventsMore.

(** * The component from mount to navigation *)

Section MountMore.
Context {num : Type} {HN : Number num} {HE : NumberEq num}.
Local Open Scope list_scope.

Lemma centerFresh_identities (w h : num) (rnd : nat -> num)
    (ns : list (Node num)) (k : nat) :
  identities (centerFresh w h rnd k ns) = identities ns.
Proof.
  revert k. induction ns as [| n ns IH]; intros k; [done |].
  cbn [centerFresh]. unfold identities in *.
  destruct (isFresh n); rewrite !fmap_cons, IH; done.
Qed.

Lemma find_by_id (pool : list Note) (k : string) :
  k ∈ id <$> pool ->
  exists n, List.find (fun n => String.eqb (id n) k) pool = Some n /\
            id n = k /\ n ∈ pool.
Proof.
  induction pool as [| m pool IH]; [by intros ?%elem_of_nil |].
  rewrite fmap_cons. cbn [List.find]. intros I.
  destruct (String.eqb_spec (id m) k) as [E | N].
  - exists m. repeat split; [done | apply list_elem_of_here].
  - apply elem_of_cons in I as [E | I]; [congruence |].
    destruct (IH I) as (n & F & E & In). exists n.
    repeat split; [done | done | by apply list_elem_of_further].
Qed.

(** Whatever the events, both ends of every link are found among the nodes:
    the physics step applies the spring of every link and the drawing step
    draws every link. *)
Theorem links_always_resolve (c : Note) (pool : list Note)
    (rnd rnd' : nat -> num) (w h : num) (es : list (Event num)) :
  Forall
    (fun l =>
       is_Some (findNode
         (nodes (graph (run c (mountView (graphData c pool rnd) w h rnd') es).1))
         (source l)) /\
       is_Some (findNode
         (nodes (graph (run c (mountView (graphData c pool rnd) w h rnd') es).1))
         (target l)))
    (links (graph (run c (mountView (graphData c pool rnd) w h rnd') es).1)).
Proof.
  destruct (run_keeps_graph c es (mountView (graphData c pool rnd) w h rnd'))
    as [Ei El].
  rewrite El. apply identities_ids in Ei.
  cbn [mountView graph nodes links] in Ei |- *.
  rewrite (identities_ids _ _ (centerFresh_identities w h rnd' _ 0)) in Ei.
  apply Forall_forall. intros l I. rewrite !findNode_is_Some, Ei.
  unfold graphData in I |- *. cbn [nodes links] in I |- *.
  destruct (makeLinks_sound _ l I) as (T & n & In & sls & sl & _ & _ & S & _).
  split; [| done]. rewrite S. apply list_elem_of_fmap. by exists n.
Qed.

(** Every identifier the graph hands to [onSelectNote] is the identifier of a
    note of the pool other than the current note's, so that outside the
    community view the lookup of [App] among the same notes finds a note
    with it. *)
Theorem navigation_opens_a_note (c : Note) (pool publicNotes : list Note)
    (rnd rnd' : nat -> num) (w h : num) (es : list (Event num)) :
  Forall
    (fun k => exists n, selectedNote false publicNotes pool (Some k) = Some n /\
                        id n = k /\ n ∈ pool /\ id n <> id c)
    (run c (mountView (graphData c pool rnd) w h rnd') es).2.
Proof.
  eapply Forall_impl; [apply run_calls |]. cbv beta.
  intros k [Ne I]. cbn [mountView graph nodes] in I.
  rewrite (identities_ids _ _ (centerFresh_identities w h rnd' _ 0)) in I.
  rewrite graphData_ids in I.
  apply elem_of_app in I as [I | I].
  - destruct (find_by_id pool k I) as (n & F & E & In).
    exists n. cbn [selectedNote]. repeat split; [done | done | done | congruence].
  - destruct (decide (id c ∈ id <$> pool)); [by apply elem_of_nil in I |].
    by apply list_elem_of_singleton in I.
Qed.

End MountMore.

(** * More in real arithmetic *)

Section RealMore.
Local Open Scope R_scope.
Local Open Scope list_scope.

Lemma nmin_R (a b : R) : nmin a b = Rmin a b.
Proof.
  unfold nmin, Rmin. cbn. destruct (Rlt_dec b a), (Rle_dec a b); (done || lra).
Qed.

Lemma nseq_R (a b : R) : nseq a b = true <-> a = b.
Proof. cbn. destruct (Req_dec_T a b); split; (done || lra). Qed.

Lemma makeNode_radius (c : Note) (r1 r2 : R) (n : Note) :
  radius (makeNode c r1 r2 n)
  = radiusOf (isCurrent (makeNode c r1 r2 n)) n.
Proof.
  unfold makeNode, radiusOf. cbn [radius isCurrent].
  destruct (String.eqb (id n) (id c)); [done |].
  rewrite nmin_R. cbn. by rewrite <- INR_IZR_INZ.
Qed.

Lemma radiusOf_range (cur : bool) (n : Note) : 8 <= radiusOf cur n <= 20.
Proof.
  unfold radiusOf. destruct cur; [lra |].
  pose proof (pos_INR (length (content n))) as P.
  unfold Rmin. destruct (Rle_dec _ _); lra.
Qed.

Lemma identities_Forall {num : Type}
    (Q : Note * num * bool * string -> Prop) (ns ns' : list (Node num)) :
  identities ns' = identities ns ->
  Forall (fun n => Q (note n, radius n, isCurrent n, color n)) ns ->
  Forall (fun n => Q (note n, radius n, isCurrent n, color n)) ns'.
Proof.
  intros E F.
  apply (Forall_fmap (fun n => (note n, radius n, isCurrent n, color n)) Q).
  apply (Forall_fmap (fun n => (note n, radius n, isCurrent n, color n)) Q) in F.
  unfold identities in E. by rewrite E.
Qed.

Lemma graphData_radius (c : Note) (pool : list Note) (rnd : nat -> R) :
  Forall (fun n => radius n = radiusOf (isCurrent n) (note n))
         (nodes (graphData c pool rnd)).
Proof.
  unfold graphData, makeNodes. cbn [nodes]. apply Forall_lookup.
  intros i n. rewrite list_lookup_imap.
  destruct (mergedNotes c pool !! i) as [m |]; [| done].
  cbn. intros [= <-]. apply makeNode_radius.
Qed.

Lemma mounted_radius (c : Note) (pool : list Note) (rnd rnd' : nat -> R)
    (w h : R) (es : list (Event R)) :
  Forall (fun n => radius n = radiusOf (isCurrent n) (note n))
    (nodes (graph (run c (mountView (graphData c pool rnd) w h rnd') es).1)).
Proof.
  destruct (run_keeps_graph c es (mountView (graphData c pool rnd) w h rnd'))
    as [Ei _].
  cbn [mountView graph nodes] in Ei. rewrite centerFresh_identities in Ei.
  apply (identities_Forall (fun t => t.1.1.2 = radiusOf t.1.2 t.1.1.1) _ _ Ei).
  apply graphData_radius.
Qed.

(** At every moment the node of the current note has radius 20, and every
    other node the radius 8 + min(length of its content / 500, 10), the
    length in UTF-16 code units: between 8 and 18, and 18 from 5000 units
    on. *)
Theorem radius_range (c : Note) (pool : list Note) (rnd rnd' : nat -> R)
    (w h : R) (es : list (Event R)) :
  Forall
    (fun n =>
       (isCurrent n = true /\ radius n = 20) \/
       (isCurrent n = false /\
        radius n = 8 + Rmin (INR (length (content (note n))) / 500) 10 /\
        8 <= radius n <= 18 /\
        (radius n = 18 <-> (5000 <= length (content (note n)))%nat)))
    (nodes (graph (run c (mountView (graphData c pool rnd) w h rnd') es).1)).
Proof.
  eapply Forall_impl; [apply mounted_radius |]. cbv beta.
  intros n ->. unfold radiusOf. destruct (isCurrent n); [by left | right].
  split; [done |]. split; [done |].
  pose proof (pos_INR (length (content (note n)))) as P.
  assert (T : (5000 <= length (content (note n)))%nat
              <-> 5000 <= INR (length (content (note n)))).
  { replace 5000 with (INR 5000) by (rewrite INR_IZR_INZ; f_equal).
    split; [apply le_INR | apply INR_le]. }
  unfold Rmin. destruct (Rle_dec _ _) as [Le | Gt].
  - split; [lra |]. rewrite T. lra.
  - split; [lra |]. rewrite T. lra.
Qed.

(** On a canvas of at least 60 by 60 a frame that finds nothing dragged
    leaves every node within [radius + 10, dimension - radius - 10] on both
    axes, whatever happened before. *)
Theorem all_nodes_in_bounds (c : Note) (pool : list Note)
    (rnd rnd' : nat -> R) (w h : R) (es : list (Event R)) :
  draggingNode
    (frame (run c (mountView (graphData c pool rnd) w h rnd') es).1) = None ->
  60 <= width
    (frame (run c (mountView (graphData c pool rnd) w h rnd') es).1) ->
  60 <= height
    (frame (run c (mountView (graphData c pool rnd) w h rnd') es).1) ->
  Forall
    (fun n =>
       radius n + 10 <= x n
         <= width (frame
              (run c (mountView (graphData c pool rnd) w h rnd') es).1)
            - radius n - 10 /\
       radius n + 10 <= y n
         <= height (frame
              (run c (mountView (graphData c pool rnd) w h rnd') es).1)
            - radius n - 10)
    (nodes (graph (animate
       (run c (mountView (graphData c pool rnd) w h rnd') es).1))).
Proof.
  pose proof (mounted_radius c pool rnd rnd' w h es) as Rad.
  set (v := (run c (mountView (graphData c pool rnd) w h rnd') es).1) in *.
  intros D W H. cbn [animate graph nodes]. apply Forall_lookup.
  intros i n' E'.
  assert (L : (i < length (nodes (graph v)))%nat).
  { rewrite <- (physicsStep_length (frame v) (links (graph v))).
    by apply lookup_lt_Some in E'. }
  apply lookup_lt_is_Some in L as [n E].
  rewrite (physicsStep_lookup _ _ _ i n E) in E'. injection E' as <-.
  rewrite Forall_lookup in Rad. specialize (Rad i n E).
  pose proof (radiusOf_range (isCurrent n) (note n)) as Rg.
  rewrite <- Rad in Rg.
  destruct (stepNode_identity (frame v) (links (graph v))
              (stepUpTo (frame v) (links (graph v)) (nodes (graph v)) i) i n)
    as (_ & -> & _).
  destruct (stepNode_bounds (frame v) (links (graph v))
              (stepUpTo (frame v) (links (graph v)) (nodes (graph v)) i) i n)
    as [[Ux Lx] [Uy Ly]]; [by rewrite D |].
  split.
  - assert (radius n + 10 <= x (stepNode (frame v) (links (graph v))
              (stepUpTo (frame v) (links (graph v)) (nodes (graph v)) i) i n))
      by (apply Lx; lra).
    lra.
  - assert (radius n + 10 <= y (stepNode (frame v) (links (graph v))
              (stepUpTo (frame v) (links (graph v)) (nodes (graph v)) i) i n))
      by (apply Ly; lra).
    lra.
Qed.

(** ** Where the nodes start *)

(** With [Math.random()] in [0, 1) every node starts at rest, with x in
    [-400, 400) and y in [-300, 300). *)
Theorem initial_placement (c : Note) (pool : list Note) (rnd : nat -> R) :
  (forall k, 0 <= rnd k < 1) ->
  Forall (fun n => (-400 <= x n < 400 /\ -300 <= y n < 300) /\
                   vx n = 0 /\ vy n = 0)
         (nodes (graphData c pool rnd)).
Proof.
  intros Rg. unfold graphData, makeNodes. cbn [nodes]. apply Forall_lookup.
  intros i n. rewrite list_lookup_imap.
  destruct (mergedNotes c pool !! i) as [m |]; [| done].
  cbn. intros [= <-]. cbn.
  pose proof (Rg (2 * i)%nat) as A. pose proof (Rg (2 * i + 1)%nat) as B.
  cbn in A, B. lra.
Qed.

Lemma centerFresh_none {num : Type} {HN : Number num} {HE : NumberEq num}
    (w h : num) (rnd : nat -> num) (ns : list (Node num)) (k : nat) :
  Forall (fun n => isFresh n = false) ns -> centerFresh w h rnd k ns = ns.
Proof.
  intros F. revert k. induction F as [| n ns Fn _ IH]; intros k; [done |].
  cbn [centerFresh]. by rewrite Fn, IH.
Qed.

(** The centring at mount moves a node only if both values [Math.random()]
    gave for its position were exactly 1/2: otherwise the nodes are
    mounted where [graphData] put them. *)
Theorem centring_needs_exact_half (c : Note) (pool : list Note)
    (rnd rnd' : nat -> R) (w h : R) :
  (forall k, rnd (2 * k)%nat <> 1 / 2 \/ rnd (2 * k + 1)%nat <> 1 / 2) ->
  nodes (graph (mountView (graphData c pool rnd) w h rnd'))
  = nodes (graphData c pool rnd).
Proof.
  intros Ne. cbn [mountView graph nodes]. apply centerFresh_none.
  unfold graphData, makeNodes. cbn [nodes]. apply Forall_lookup.
  intros i n. rewrite list_lookup_imap.
  destruct (mergedNotes c pool !! i) as [m |]; [| done].
  cbn [fmap option_fmap option_map]. intros [= <-].
  unfold isFresh, makeNode. cbn [x y].
  apply andb_false_iff.
  destruct (Ne i) as [A | B]; [left | right];
    apply not_true_is_false; rewrite nseq_R; cbn; cbn in *; lra.
Qed.

(** The centring keeps every node that is not at (0, 0) as it is, and puts
    a node at (0, 0) within 50 of the middle of the canvas on both axes,
    nothing else of it changed. *)
Theorem fresh_nodes_are_centred (w h : R) (rnd : nat -> R)
    (ns : list (Node R)) (k : nat) :
  (forall j, 0 <= rnd j < 1) ->
  Forall2
    (fun n n' =>
       (x n <> 0 \/ y n <> 0 -> n' = n) /\
       (x n = 0 -> y n = 0 ->
        Rabs (x n' - w / 2) <= 50 /\ Rabs (y n' - h / 2) <= 50 /\
        vx n' = vx n /\ vy n' = vy n /\ sameIdentity n n'))
    ns (centerFresh w h rnd k ns).
Proof.
  intros Rg. revert k. induction ns as [| n ns IH]; intros k;
    [apply Forall2_nil_2 |].
  cbn [centerFresh]. unfold isFresh.
  destruct (nseq (x n) (nconst 0)) eqn:Ex; cbn [andb].
  - destruct (nseq (y n) (nconst 0)) eqn:Ey.
    + apply nseq_R in Ex, Ey. cbn in Ex, Ey.
      constructor; [| apply IH]. split; [intros [? | ?]; done |].
      intros _ _. cbn.
      pose proof (Rg k) as A. pose proof (Rg (S k)) as B.
      change (IZR (10 ^ Z.of_nat 1)) with 10.
      repeat split; try done; apply Rabs_le; lra.
    + constructor; [| apply IH]. split; [done |].
      intros _ Hy. pose proof (proj2 (nseq_R (y n) (nconst 0)) Hy). congruence.
  - constructor; [| apply IH]. split; [done |].
    intros Hx _. pose proof (proj2 (nseq_R (x n) (nconst 0)) Hx). congruence.
Qed.

(** ** The walls *)

(** What the two boundary tests do on one axis: the speed is kept; a
    position within the band is left alone with its velocity; when the
    canvas has room, the position is clamped to the band and the velocity
    is reversed exactly when the position was outside, whichever way the
    node was moving. *)
Theorem bounce_clamps_and_reverses (dim p pos vel : R) :
  Rabs (bounce dim p pos vel).2 = Rabs vel /\
  (p <= pos <= dim - p -> bounce dim p pos vel = (pos, vel)) /\
  (p <= dim - p ->
   (bounce dim p pos vel).1 = Rmax p (Rmin pos (dim - p)) /\
   (pos < p \/ dim - p < pos -> (bounce dim p pos vel).2 = - vel)).
Proof.
  unfold bounce, ngt. cbn.
  destruct (Rlt_dec pos p) as [Lo | Lo]; cbn;
    destruct (Rlt_dec _ _) as [Hi | Hi]; cbn.
  - split; [f_equal; lra |]. split; [lra |]. intros; lra.
  - split; [replace (vel * -1) with (- vel) by lra; apply Rabs_Ropp |].
    split; [lra |]. intros Room.
    split; [| intros _; lra].
    unfold Rmin. destruct (Rle_dec _ _); unfold Rmax;
      destruct (Rle_dec _ _); lra.
  - split; [replace (vel * -1) with (- vel) by lra; apply Rabs_Ropp |].
    split; [lra |]. intros Room.
    split; [| intros _; lra].
    unfold Rmin. destruct (Rle_dec _ _); unfold Rmax;
      destruct (Rle_dec _ _); lra.
  - split; [done |]. split; [done |]. intros Room.
    split; [| intros [? | ?]; lra].
    unfold Rmin. destruct (Rle_dec _ _); unfold Rmax;
      destruct (Rle_dec _ _); lra.
Qed.

(** ** The forces *)

(** The repulsion on a node points away from the other node, along the
    line through the two; it vanishes on an axis only where the two
    coordinates are equal, so that two nodes at the same place do not repel
    each other at all. *)
Theorem repulsion_pushes_away (a b : Node R) :
  (0 <= (repulsionTerm a b).1 * (x a - x b) /\
   0 <= (repulsionTerm a b).2 * (y a - y b)) /\
  (repulsionTerm a b).1 * (y a - y b)
  = (repulsionTerm a b).2 * (x a - x b) /\
  ((repulsionTerm a b).1 = 0 <-> x a = x b) /\
  ((repulsionTerm a b).2 = 0 <-> y a = y b).
Proof.
  rewrite repulsionTerm_R. cbn [fst snd].
  pose proof (repulsionDist_ge_1 (x a - x b) (y a - y b)) as G.
  set (d := repulsionDist (x a - x b) (y a - y b)) in *. clearbody d.
  assert (C : 0 < / d * (1200 / (d * d))).
  { apply Rmult_lt_0_compat; [apply Rinv_0_lt_compat; lra |].
    apply Rdiv_lt_0_compat; nra. }
  replace ((x a - x b) / d * (1200 / (d * d)))
    with ((x a - x b) * (/ d * (1200 / (d * d)))) by (unfold Rdiv; ring).
  replace ((y a - y b) / d * (1200 / (d * d)))
    with ((y a - y b) * (/ d * (1200 / (d * d)))) by (unfold Rdiv; ring).
  set (k := / d * (1200 / (d * d))) in *. clearbody k.
  set (dx := x a - x b). set (dy := y a - y b).
  assert (Sq : forall u : R, 0 <= u * k * u).
  { intros u. replace (u * k * u) with (u * u * k) by ring.
    apply Rmult_le_pos; nra. }
  assert (Zr : forall u : R, u * k = 0 <-> u = 0).
  { intros u. split; [| intros ->; ring].
    intros [E | E]%Rmult_integral; lra. }
  split; [split; apply Sq |]. split; [ring |].
  rewrite !Zr. unfold dx, dy. split; split; lra.
Qed.

Lemma springTerm_R (a b : Node R) :
  springTerm a b
  = ((x a - x b) / distOr1 (x a - x b) (y a - y b)
     * ((distOr1 (x a - x b) (y a - y b) - 180) * (4 / 100)),
     (y a - y b) / distOr1 (x a - x b) (y a - y b)
     * ((distOr1 (x a - x b) (y a - y b) - 180) * (4 / 100))).
Proof. reflexivity. Qed.

Lemma distOr1_opp (dx dy : R) : distOr1 (- dx) (- dy) = distOr1 dx dy.
Proof.
  rewrite !distOr1_R.
  by replace (- dx * - dx + - dy * - dy) with (dx * dx + dy * dy) by ring.
Qed.

(** The spring of a link: what it gives the two ends from the same
    positions is opposite; it vanishes when the ends are 180 apart, and as
    the step subtracts it from the force on the node, it pulls the node
    towards the other end when they are further apart, and pushes it away
    when they are closer. *)
Theorem spring_restores (a b : Node R) :
  ((springTerm a b).1 = - (springTerm b a).1 /\
   (springTerm a b).2 = - (springTerm b a).2) /\
  (sqrt ((x a - x b) * (x a - x b) + (y a - y b) * (y a - y b)) = 180 ->
   springTerm a b = (0, 0)) /\
  (180 <= sqrt ((x a - x b) * (x a - x b) + (y a - y b) * (y a - y b)) ->
   0 <= (springTerm a b).1 * (x a - x b) /\
   0 <= (springTerm a b).2 * (y a - y b)) /\
  (sqrt ((x a - x b) * (x a - x b) + (y a - y b) * (y a - y b)) <= 180 ->
   (springTerm a b).1 * (x a - x b) <= 0 /\
   (springTerm a b).2 * (y a - y b) <= 0).
Proof.
  split.
  { rewrite !springTerm_R. cbn [fst snd].
    replace (x b - x a) with (- (x a - x b)) by ring.
    replace (y b - y a) with (- (y a - y b)) by ring.
    rewrite distOr1_opp. unfold Rdiv. split; ring. }
  rewrite springTerm_R. cbn [fst snd]. rewrite distOr1_R.
  pose proof (sqrt_pos ((x a - x b) * (x a - x b) + (y a - y b) * (y a - y b)))
    as P.
  set (D := sqrt ((x a - x b) * (x a - x b) + (y a - y b) * (y a - y b))) in *.
  clearbody D.
  set (dx := x a - x b). set (dy := y a - y b). clearbody dx dy.
  destruct (Req_dec_T D 0) as [Zero | NZ].
  - split; [intros; lra |]. split; [intros; lra |]. intros _.
    unfold Rdiv. rewrite Rinv_1. split; nra.
  - assert (I : 0 < / D) by (apply Rinv_0_lt_compat; lra).
    replace (dx / D * ((D - 180) * (4 / 100)))
      with (dx * (/ D * ((D - 180) * (4 / 100)))) by (unfold Rdiv; ring).
    replace (dy / D * ((D - 180) * (4 / 100)))
      with (dy * (/ D * ((D - 180) * (4 / 100)))) by (unfold Rdiv; ring).
    split; [| split].
    + intros ->. f_equal; lra.
    + intros Far. assert (K : 0 <= / D * ((D - 180) * (4 / 100))) by nra.
      set (k := / D * ((D - 180) * (4 / 100))) in *. clearbody k.
      split; nra.
    + intros Near. assert (K : / D * ((D - 180) * (4 / 100)) <= 0) by nra.
      set (k := / D * ((D - 180) * (4 / 100))) in *. clearbody k.
      split; nra.
Qed.

Lemma sum_sq_zero (u v : R) : u * u + v * v = 0 -> u = 0 /\ v = 0.
Proof. intros E. split; nra. Qed.

Lemma sum_sq_pos (u v : R) : u * u + v * v <> 0 -> 0 < u * u + v * v.
Proof. intros E. nra. Qed.

(** ** Hovering over a link *)

(** The distance the link test compares with 5 is the distance from the
    pointer to the nearest point of the segment between the two nodes,
    also when the two nodes are at the same place. *)
Theorem segmentDist_is_nearest (src tgt : Node R) (mx my : R) :
  (exists t, 0 <= t <= 1 /\
             segmentDist src tgt mx my = distanceAt src tgt mx my t) /\
  (forall t, 0 <= t <= 1 ->
             segmentDist src tgt mx my <= distanceAt src tgt mx my t).
Proof.
  unfold segmentDist, distanceAt. cbv zeta.
  cbn [nadd nsub nmul ndiv nsqrt nconst ngt nlt nseq R_Number R_NumberEq].
  unfold ngt. cbn [nlt R_Number].
  set (xs := x src). set (ys := y src). set (xt := x tgt). set (yt := y tgt).
  clearbody xs ys xt yt.
  destruct (Req_dec_T ((xt - xs) * (xt - xs) + (yt - ys) * (yt - ys)) 0)
    as [Zero | NZ]; cbn [negb].
  - destruct (Rlt_dec (-1) 0) as [_ | N]; [| lra]. cbn [fst snd].
    destruct (sum_sq_zero _ _ Zero) as [C D].
    split.
    + exists 0. split; [lra |]. f_equal. rewrite C, D. ring.
    + intros t _. apply Req_le. f_equal. rewrite C, D. ring.
  - pose proof (sum_sq_pos _ _ NZ) as PL.
    set (L := (xt - xs) * (xt - xs) + (yt - ys) * (yt - ys)) in *.
    set (dot := (mx - xs) * (xt - xs) + (my - ys) * (yt - ys)).
    assert (Edot : dot / L * L = dot) by (field; lra).
    set (p := dot / L) in *.
    assert (Sq : forall t,
      (mx - (xs + t * (xt - xs))) * (mx - (xs + t * (xt - xs)))
      + (my - (ys + t * (yt - ys))) * (my - (ys + t * (yt - ys)))
      = (mx - xs) * (mx - xs) + (my - ys) * (my - ys)
        - 2 * t * dot + t * t * L) by (intros t; unfold dot, L; ring).
    destruct (Rlt_dec p 0) as [Neg | NNeg]; cbn [fst snd].
    + split.
      * exists 0. split; [lra |]. f_equal. ring.
      * intros t [T0 T1]. apply sqrt_le_1_alt. rewrite Sq.
        clear Sq NZ. clearbody p dot L.
        assert (dot < 0) by nra.
        assert (0 <= t * t * L) by (apply Rmult_le_pos; nra).
        nra.
    + destruct (Rlt_dec 1 p) as [Big | NBig]; cbn [fst snd].
      * split.
        -- exists 1. split; [lra |]. f_equal. ring.
        -- intros t [T0 T1]. apply sqrt_le_1_alt.
           replace ((mx - xt) * (mx - xt) + (my - yt) * (my - yt))
             with ((mx - xs) * (mx - xs) + (my - ys) * (my - ys)
                   - 2 * 1 * dot + 1 * 1 * L) by (unfold dot, L; ring).
           rewrite Sq. clear Sq NZ. clearbody p dot L.
           assert (L < dot) by nra.
           assert (0 <= (1 - t) * (1 - t) * L) by (apply Rmult_le_pos; nra).
           assert (0 <= (1 - t) * (dot - L)) by (apply Rmult_le_pos; lra).
           nra.
      * split.
        -- exists p. split; [lra |]. done.
        -- intros t [T0 T1]. apply sqrt_le_1_alt. rewrite !Sq.
           clear Sq NZ. clearbody p dot L.
           pose proof (Rmult_le_pos _ _ (Rle_0_sqr (t - p)) (Rlt_le _ _ PL))
             as Hq.
           unfold Rsqr in Hq. subst dot. nra.
Qed.

(** ** Labels *)

(** The title is written under the node of the current note, under the
    node the drawing step holds as hovered, and under the nodes of notes
    longer than 3500 UTF-16 code units, and under no other. *)
Theorem label_shown_iff (c : Note) (pool : list Note) (rnd rnd' : nat -> R)
    (w h : R) (es : list (Event R)) :
  Forall
    (fun n => forall (hovered : option nat) (i : nat),
       labelShown hovered i n = true <->
       isCurrent n = true \/ hovered = Some i \/
       (3500 < length (content (note n)))%nat)
    (nodes (graph (run c (mountView (graphData c pool rnd) w h rnd') es).1)).
Proof.
  eapply Forall_impl; [apply mounted_radius |]. cbv beta.
  intros n Rad hovered i. unfold labelShown.
  rewrite !orb_true_iff, bool_decide_eq_true. unfold ngt.
  rewrite nlt_R_true, Rad. unfold radiusOf.
  assert (T : (3500 < length (content (note n)))%nat
              <-> 3500 < INR (length (content (note n)))).
  { replace 3500 with (INR 3500) by (rewrite INR_IZR_INZ; f_equal).
    split; [apply lt_INR | apply INR_lt]. }
  rewrite T. cbn [nconst R_Number].
  destruct (isCurrent n); [split; intros _; [by left | by left; left] |].
  assert (X : 15 < 8 + Rmin (INR (length (content (note n))) / 500) 10
              <-> 3500 < INR (length (content (note n)))).
  { unfold Rmin. destruct (Rle_dec _ _); split; lra. }
  rewrite X. split.
  - intros [[? | ?] | ?]; [done | right; by left | right; by right].
  - intros [? | [? | ?]]; [done | left; by right | by right].
Qed.

End RealMore.

(** * Hovering and labels *)

Section HoverMore.
Context {num : Type} {HN : Number num} {HE : NumberEq num}.
Local Open Scope list_scope.

Lemma linkHit_Some (ns : list (Node num)) (ls : list Link) (px py : num)
    (l : Link) :
  linkHit ns ls px py = Some l ->
  l ∈ ls /\ linkNear ns px py l = true.
Proof.
  unfold linkHit. intros [I N]%List.find_some.
  split; [by apply list_elem_of_In | done].
Qed.

Lemma linkNear_ends (ns : list (Node num)) (px py : num) (l : Link) :
  linkNear ns px py l = true ->
  exists src tgt,
    findNode ns (source l) = Some src /\ findNode ns (target l) = Some tgt /\
    nlt (segmentDist src.2 tgt.2 px py) (nconst 5) = true.
Proof.
  unfold linkNear.
  destruct (findNode ns (source l)) as [[si src] |]; [| done].
  destruct (findNode ns (target l)) as [[ti tgt] |]; [| done].
  intros N. by exists (si, src), (ti, tgt).
Qed.

(** While a node is dragged a pointer move leaves the hover state alone.
    Otherwise it never leaves both a node and a link hovered: the node
    hovered is the node a press at the same point would start to drag, and
    a link is hovered only where no node is, with both its ends among the
    nodes and the pointer less than 5 from the segment between them. *)
Theorem hover_node_before_link (v : View num) (h : Hover num) (px py : num) :
  (is_Some (draggingNode (frame v)) -> hoverOnMove v h px py = h) /\
  (draggingNode (frame v) = None ->
   ~ (is_Some (hoveredNode (hoverOnMove v h px py)) /\
      is_Some (hoveredLink (hoverOnMove v h px py))) /\
   hoveredNode (hoverOnMove v h px py)
   = draggingNode (frame (handleMouseDown v px py)) /\
   (forall l a b,
       hoveredLink (hoverOnMove v h px py) = Some (l, a, b) ->
       (a = px /\ b = py) /\
       hitNode (nodes (graph v)) px py = None /\
       l ∈ links (graph v) /\
       exists src tgt,
         findNode (nodes (graph v)) (source l) = Some src /\
         findNode (nodes (graph v)) (target l) = Some tgt /\
         nlt (segmentDist src.2 tgt.2 px py) (nconst 5) = true)).
Proof.
  unfold hoverOnMove, handleMouseDown. split.
  - intros [i ->]. done.
  - intros D. rewrite D.
    destruct (hitNode (nodes (graph v)) px py) as [[i n] |];
      cbn [hoveredNode hoveredLink frame setDragging draggingNode].
    + split; [intros [_ [? [=]]] |]. split; [done |]. intros l a b [=].
    + split; [intros [[? [=]] _] |]. split; [done |]. intros l a b.
      destruct (linkHit _ _ _ _) as [l' |] eqn:Hit; [| done].
      intros [= -> <- <-]. apply linkHit_Some in Hit as [I N].
      split; [done |]. split; [done |]. split; [done |].
      by apply linkNear_ends.
Qed.

End HoverMore.

Section LabelMore.
Local Open Scope list_scope.

(** The label is at most 20 code units long.  A title of at most 20 units
    is its own label; a longer one is cut: its label has exactly 20 units,
    the first 18 of the title and two dots.  A label is its own label. *)
Theorem labelText_fits (t : CodeUnits) :
  (length (labelText t) <= 20)%nat /\
  ((length t <= 20)%nat -> labelText t = t) /\
  ((20 < length t)%nat ->
   length (labelText t) = 20%nat /\
   labelText t = take 18 t ++ [46%N; 46%N] /\
   (forall i, (i < 18)%nat -> labelText t !! i = t !! i)) /\
  labelText (labelText t) = labelText t.
Proof.
  assert (Cut : (20 < length t)%nat ->
                labelText t = take 18 t ++ [46%N; 46%N]).
  { intros Long. unfold labelText.
    by destruct (Nat.ltb_spec 20 (length t)); [| lia]. }
  assert (Keep : forall u : CodeUnits,
             (length u <= 20)%nat -> labelText u = u).
  { intros u Short. unfold labelText.
    by destruct (Nat.ltb_spec 20 (length u)); [lia |]. }
  destruct (Nat.le_gt_cases (length t) 20) as [Short | Long].
  - rewrite !(Keep t Short).
    split; [done |]. split; [done |]. split; [lia | done].
  - rewrite !(Cut Long).
    assert (L18 : length (take 18 t) = 18%nat)
      by (rewrite length_take; lia).
    assert (L20 : length (take 18 t ++ [46%N; 46%N]) = 20%nat)
      by (rewrite length_app, L18; done).
    split; [lia |]. split; [lia |]. split.
    + intros _. split; [done |]. split; [done |].
      intros i Lt. rewrite lookup_app_l by lia. by apply lookup_take_lt.
    + apply Keep. lia.
Qed.

End LabelMore.

(** * What stays as it was built *)

Section KeptMore.
Context {num : Type} {HN : Number num} {HE : NumberEq num}.
Local Open Scope list_scope.

Lemma axisColor_not_white (m : option NoteMetadata) : axisColor m <> "#ffffff".
Proof.
  unfold axisColor. destruct (m ≫= lifeAxis) as [[| | | | | |] |]; done.
Qed.

Lemma graphData_colors (c : Note) (pool : list Note) (rnd : nat -> num) :
  Forall (fun n => color n = "#ffffff" <-> isCurrent n = true)
         (nodes (graphData c pool rnd)).
Proof.
  unfold graphData, makeNodes. cbn [nodes]. apply Forall_lookup.
  intros i n. rewrite list_lookup_imap.
  destruct (mergedNotes c pool !! i) as [m |]; [| done].
  cbn [fmap option_fmap option_map]. intros [= <-].
  unfold makeNode. cbn [color isCurrent].
  destruct (String.eqb (id m) (id c)); [done |].
  split; [| done]. intros E. by apply axisColor_not_white in E.
Qed.

Lemma identities_sameIdentity (ns ns' : list (Node num)) :
  identities ns' = identities ns -> Forall2 sameIdentity ns ns'.
Proof.
  revert ns'. induction ns as [| n ns IH]; intros [| n' ns'] E; try done.
  unfold identities in E. rewrite !fmap_cons in E.
  injection E as En Er Ec Eo E. constructor; [done |]. by apply IH.
Qed.

(** No event adds, removes or reorders nodes, or changes the note, the
    radius, the mark or the colour of one, or changes the links; and only
    an animation frame moves a node. *)
Theorem events_keep_the_graph (c : Note) (es : list (Event num))
    (v : View num) :
  (Forall2 sameIdentity (nodes (graph v)) (nodes (graph (run c v es).1)) /\
   links (graph (run c v es).1) = links (graph v)) /\
  (AnimationFrame ∉ es -> graph (run c v es).1 = graph v).
Proof.
  split.
  - destruct (run_keeps_graph c es v) as [Ei El]. split; [| done].
    by apply identities_sameIdentity.
  - revert v. induction es as [| e es IH]; intros v N; [done |].
    cbn [run fst].
    apply not_elem_of_cons in N as [Ne N]. rewrite (IH _ N).
    destruct e as [px py | px py | px py | | w0 h0 |]; cbn [handle fst];
      try done.
    + unfold handleMouseDown. by destruct (hitNode _ _ _) as [[j ?] |].
    + unfold handleMouseUp. destruct (draggingNode (frame v)); [| done].
      destruct (nodes (graph v) !! n); [| done].
      destruct (nlt _ _); [destruct (negb _) |]; done.
Qed.

(** At every moment the white node is the node marked current, and the node
    marked current is a node with the identifier of the current note. *)
Theorem white_is_current (c : Note) (pool : list Note)
    (rnd rnd' : nat -> num) (w h : num) (es : list (Event num)) :
  Forall
    (fun n => (color n = "#ffffff" <-> isCurrent n = true) /\
              (isCurrent n = true <-> node_id n = id c))
    (nodes (graph (run c (mountView (graphData c pool rnd) w h rnd') es).1)).
Proof.
  destruct (run_keeps_graph c es (mountView (graphData c pool rnd) w h rnd'))
    as [Ei _].
  cbn [mountView graph nodes] in Ei. rewrite centerFresh_identities in Ei.
  apply (identities_Forall
           (fun t => (t.2 = "#ffffff" <-> t.1.2 = true) /\
                     (t.1.2 = true <-> id t.1.1.1 = id c)) _ _ Ei).
  pose proof (graphData_colors c pool rnd) as Col.
  pose proof (graphData_flagged c pool rnd) as Fl. unfold flagged in Fl.
  rewrite Forall_lookup in Col, Fl. apply Forall_lookup. intros i n E.
  cbn [fst snd]. split; [by apply (Col i) |].
  rewrite (Fl i n E). apply String.eqb_eq.
Qed.

End KeptMore.

(** * The further statements on sample inputs *)

Lemma links_are_declared_witness :
  source {| source := "A"; target := "B"; link_reason := Some "related" |}
    ∈ id <$> mergedNotes (sampleNote "A" "" ["B"])
               [sampleNote "B" "" []] /\
  target {| source := "A"; target := "B"; link_reason := Some "related" |}
    ∈ id <$> mergedNotes (sampleNote "A" "" ["B"])
               [sampleNote "B" "" []] /\
  exists n, n ∈ mergedNotes (sampleNote "A" "" ["B"])
                  [sampleNote "B" "" []] /\
            declaredBy n
              {| source := "A"; target := "B"; link_reason := Some "related" |}.
Proof.
  apply (links_are_declared (num := float) (sampleNote "A" "" ["B"])
           [sampleNote "B" "" []] sampleRandom).
  vm_compute. apply list_elem_of_here.
Defined.

Lemma backlinks_are_edges_witness :
  countJoins "B" "A"
    (links (graphData (num := float) (sampleNote "A" "" [])
              [sampleNote "A" "" []; sampleNote "B" "" ["A"]] sampleRandom))
  = 1%nat.
Proof.
  apply (backlinks_are_edges (num := float) (sampleNote "A" "" [])
           [sampleNote "A" "" []; sampleNote "B" "" ["A"]] sampleRandom
           (sampleNote "B" "" ["A"])).
  - vm_compute. apply list_elem_of_here.
  - done.
Defined.

Lemma all_nodes_in_bounds_witness :
  Forall
    (fun n => (radius n + 10 <= x n <= 800 - radius n - 10)%R /\
              (radius n + 10 <= y n <= 600 - radius n - 10)%R)
    (nodes (graph (animate
       (mountView (graphData (sampleNote "A" "" ["B"])
                             [sampleNote "B" "" []] (fun _ => 0%R))
                  800%R 600%R (fun _ => 0%R))))).
Proof.
  apply (all_nodes_in_bounds (sampleNote "A" "" ["B"]) [sampleNote "B" "" []]
           (fun _ => 0%R) (fun _ => 0%R) 800%R 600%R []).
  - reflexivity.
  - cbn. lra.
  - cbn. lra.
Defined.

Lemma initial_placement_witness :
  Forall (fun n => ((-400 <= x n < 400)%R /\ (-300 <= y n < 300)%R) /\
                   vx n = 0%R /\ vy n = 0%R)
         (nodes (graphData (sampleNote "A" "" ["B"]) [sampleNote "B" "" []]
                           (fun _ => (1 / 4)%R))).
Proof.
  apply (initial_placement (sampleNote "A" "" ["B"]) [sampleNote "B" "" []]
           (fun _ => (1 / 4)%R)).
  intros k. lra.
Defined.

Lemma centring_needs_exact_half_witness :
  nodes (graph (mountView (graphData (sampleNote "A" "" ["B"])
                                     [sampleNote "B" "" []]
                                     (fun _ => (1 / 4)%R))
                          800%R 600%R (fun _ => 0%R)))
  = nodes (graphData (sampleNote "A" "" ["B"]) [sampleNote "B" "" []]
                     (fun _ => (1 / 4)%R)).
Proof.
  apply (centring_needs_exact_half (sampleNote "A" "" ["B"])
           [sampleNote "B" "" []] (fun _ => (1 / 4)%R) (fun _ => 0%R)
           800%R 600%R).
  intros k. left. lra.
Defined.

Lemma fresh_nodes_are_centred_witness :
  Forall2
    (fun n n' =>
       (x n <> 0%R \/ y n <> 0%R -> n' = n) /\
       (x n = 0%R -> y n = 0%R ->
        (Rabs (x n' - 800 / 2) <= 50)%R /\ (Rabs (y n' - 600 / 2) <= 50)%R /\
        vx n' = vx n /\ vy n' = vy n /\ sameIdentity n n'))
    [currentNode (num := R) "A" 0 0; sampleNode "B" 100 100 8]
    (centerFresh 800%R 600%R (fun _ => (1 / 4)%R) 0
       [currentNode "A" 0 0; sampleNode "B" 100 100 8]).
Proof.
  apply (fresh_nodes_are_centred 800%R 600%R (fun _ => (1 / 4)%R)
           [currentNode "A" 0 0; sampleNode "B" 100 100 8] 0).
  intros j. lra.
Defined.

(** * The dragged node and the pointer *)

(** During a drag a pointer move changes no hover state, so that it never
    makes the effect run again. *)
Lemma move_during_drag {num : Type} {HN : Number num} {HE : NumberEq num}
    (v : View num) (h : Hover num) (px py : num) :
  is_Some (draggingNode (frame v)) ->
  moveReruns v h px py = false /\ hoverOnMove v h px py = h.
Proof. intros [i D]. unfold moveReruns, hoverOnMove. by rewrite D. Qed.

(** C6, on two failing inputs (binary64).  The node "B" is pressed at
    (100, 100) and the pointer is moved to (300, 100) with the button held:
    after 200 frames "B" is still the dragged node and still at (100, 100),
    200 away from the pointer, with the velocity (20, 0) that every frame
    wrote and none applied.  And when the pointer has come to "B" over the
    link, each of the two moves changing [hoveredLink] and making the
    effect run again, a press on "B" where the pointer is and a frame give
    "B" the velocity (-10, -10): a pull towards (0, 0), not towards the
    pointer at (100, 100). *)
Theorem dragged_node_does_not_track :
  (exists B : Node float,
      nodes (graph (run (sampleNote "A" "" [])
                        (sampleView sampleNodes (sampleFrame 800 600 None 0 0))
                        dragAway).1) !! 1%nat = Some B /\
      draggingNode (frame (run (sampleNote "A" "" [])
                        (sampleView sampleNodes (sampleFrame 800 600 None 0 0))
                        dragAway).1) = Some 1%nat /\
      mouseX (frame (run (sampleNote "A" "" [])
                        (sampleView sampleNodes (sampleFrame 800 600 None 0 0))
                        dragAway).1) = nconst 300 /\
      (x B = nconst 100 /\ y B = nconst 100) /\
      (vx B = nconst 20 /\ vy B = nconst 0)) /\
  ((moveReruns (num := float) linkedView
      {| hoveredNode := None; hoveredLink := None |} (nconst 250) (nconst 200)
    = true /\
    moveReruns overLink
      (hoverOnMove (num := float) linkedView
         {| hoveredNode := None; hoveredLink := None |}
         (nconst 250) (nconst 200))
      (nconst 100) (nconst 100)
    = true) /\
   exists B : Node float,
      nodes (graph (run (sampleNote "A" "" []) overNode
                        [MouseDown (nconst 100) (nconst 100);
                         AnimationFrame]).1) !! 1%nat = Some B /\
      (x B = nconst 100 /\ y B = nconst 100) /\
      (vx B = nconst (-10) /\ vy B = nconst (-10))).
Proof.
  split.
  - eexists. split; [vm_compute; reflexivity |].
    split; [vm_compute; reflexivity |].
    split; [vm_compute; reflexivity |].
    split; split; vm_compute; reflexivity.
  - split; [split; vm_compute; reflexivity |].
    eexists. split; [vm_compute; reflexivity |].
    split; split; vm_compute; reflexivity.
Qed.
